(** * pos_restrict_out_of_stock: the POS product loader extension

    A shallow embedding of [models/product.py]: the two methods the module
    adds to [product.product],

    - [_load_pos_data_fields], which makes sure the POS payload carries the
      [type] and [is_storable] columns, and
    - [_process_pos_ui_product_product], which resolves the stock location
      of a POS configuration, asks the ORM for the quantities on hand
      grouped by product, and writes [pos_available_qty] into every product
      dictionary of the payload.

    The ORM is an interface the methods are written against ([ORM]); its
    queries take the database and return a value or raise.  An in-memory
    database ([Memory]) implements the interface and gives the grouped
    aggregate its meaning. *)

From Stdlib Require Import ZArith QArith.
From stdpp Require Import base option list strings gmap fin_maps.

Close Scope Q_scope.
Open Scope string_scope.

(** ** Python values *)

(** The values that occur in a product dictionary of the POS payload.
    Quantities are Python floats read from a decimal column; they are
    carried as rationals. *)
Inductive pyval : Type :=
| VNone
| VBool (b : bool)
| VInt (z : Z)
| VFloat (q : Q)
| VStr (s : string).

(** [bool(v)] *)
Definition truthy (v : pyval) : bool :=
  match v with
  | VNone => false
  | VBool b => b
  | VInt z => negb (z =? 0)%Z
  | VFloat q => negb (Qeq_bool q 0)
  | VStr s => negb (String.eqb s "")
  end.

(** [a or b] *)
Definition py_or (a b : pyval) : pyval := if truthy a then a else b.

(** [v == "..."] for a string literal on the right. *)
Definition eq_str (v : pyval) (lit : string) : bool :=
  match v with
  | VStr s => String.eqb s lit
  | _ => false
  end.

(** A product dictionary: [dict.get(k)] is [None] for a missing key. *)
Definition dict_get (p : gmap string pyval) (k : string) : pyval :=
  default VNone (p !! k).

(** ** Exceptions *)

(** Python exceptions, all of them subclasses of [Exception]. *)
Inductive exn : Type :=
| KeyError (key : string)
| ValueError (msg : string)
| TypeError (msg : string)
| AttributeError (msg : string)
| MissingError (model : string)
| AccessError (model : string)
| UserError (msg : string).

Inductive result (A : Type) : Type :=
| Ok (a : A)
| Raise (e : exn).
Arguments Ok {A} a.
Arguments Raise {A} e.

(** ** The ORM interface *)

(** A recordset: a model name and the ids it holds, in order. *)
Record recordset : Type := Recordset { rs_model : string; rs_ids : list Z }.

(** [bool(recordset)]: a recordset is falsy when it is empty. *)
Definition rs_truthy (rs : recordset) : bool :=
  match rs_ids rs with [] => false | _ :: _ => true end.

(** [recordset.id]: [False] on an empty recordset, the id of a singleton,
    and [ValueError] on several records. *)
Definition rs_id (rs : recordset) : result pyval :=
  match rs_ids rs with
  | [] => Ok (VBool false)
  | [i] => Ok (VInt i)
  | _ :: _ :: _ => Raise (ValueError "Expected singleton")
  end.

(** A search domain is a list of leaves [(field, operator, value)]. *)
Inductive operand : Type :=
| OVal (v : pyval)
| OList (vs : list pyval).

Definition leaf : Type := string * string * operand.

(** One row of [read_group]: [q["product_id"]] is the pair of the id and
    the display name, [q["quantity"]] is the aggregate. *)
Record group : Type := Group { g_product_id : Z * string; g_quantity : Q }.

(** The four ORM entry points the module calls.  Each is a query on the
    database; it yields a value or raises. *)
Record ORM (DB : Type) : Type := {
  orm_browse : DB → string → pyval → result recordset;
  orm_exists : DB → recordset → result recordset;
  orm_get : DB → recordset → string → result recordset;
  orm_read_group :
    DB → string → list leaf → list string → list string → result (list group)
}.
Arguments orm_browse {DB} _ _ _ _.
Arguments orm_exists {DB} _ _ _.
Arguments orm_get {DB} _ _ _ _.
Arguments orm_read_group {DB} _ _ _ _ _ _.

(** What a method asked of the ORM, in call order. *)
Inductive event : Type :=
| EvBrowse (model : string) (arg : pyval)
| EvExists (rs : recordset)
| EvGet (rs : recordset) (field : string)
| EvReadGroup (model : string) (dom : list leaf) (fields groupby : list string).

Definition is_read_group (ev : event) : bool :=
  match ev with EvReadGroup _ _ _ _ => true | _ => false end.

(** ** Control flow of a method body *)

(** The database the environment is bound to and the log of ORM calls. *)
Record state (DB : Type) : Type := State { st_db : DB; st_log : list event }.
Arguments State {DB} _ _.
Arguments st_db {DB} _.
Arguments st_log {DB} _.

(** A statement either falls through with a value, executes [return], or
    raises. *)
Inductive flow (A : Type) : Type :=
| Val (a : A)
| Returned
| Raised (e : exn).
Arguments Val {A} a.
Arguments Returned {A}.
Arguments Raised {A} e.

Definition M (DB A : Type) : Type := state DB → flow A * state DB.
Global Typeclasses Opaque M.

Definition pure {DB A} (a : A) : M DB A := λ s, (Val a, s).

Definition bind {DB A B} (m : M DB A) (k : A → M DB B) : M DB B :=
  λ s, match m s with
       | (Val a, s') => k a s'
       | (Returned, s') => (Returned, s')
       | (Raised e, s') => (Raised e, s')
       end.

(** [return] *)
Definition return_ {DB A} : M DB A := λ s, (Returned, s).

(** A Python expression that may raise. *)
Definition lift {DB A} (r : result A) : M DB A :=
  λ s, (match r with Ok a => Val a | Raise e => Raised e end, s).

(** [try: body except Exception: return] *)
Definition try_except_return {DB A} (body : M DB A) : M DB A :=
  λ s, match body s with
       | (Raised _, s') => (Returned, s')
       | r => r
       end.

(** An ORM call: the query runs on the current database and is logged. *)
Definition call {DB A} (ev : event) (query : DB → result A) : M DB A :=
  λ s, (match query (st_db s) with Ok a => Val a | Raise e => Raised e end,
        State (st_db s) (st_log s ++ [ev])).

(** The body of a method is written with stdpp's [x ← m; k]. *)
Global Instance M_ret {DB} : MRet (M DB) := λ A, pure.
Global Instance M_bind {DB} : MBind (M DB) := λ A B k m, bind m k.

(** ** [_load_pos_data_fields] *)

(** [if extra not in fields: fields.append(extra)] *)
Definition append_if_absent (fields : list string) (extra : string) : list string :=
  if bool_decide (extra ∈ fields) then fields else (fields ++ [extra])%list.

(** The loop [for extra in ["type", "is_storable"]] over the copy of the
    list [super()] returned. *)
Definition ensure_type_fields (fields : list string) : list string :=
  foldl append_if_absent fields ["type"; "is_storable"].

(** [_load_pos_data_fields(config_id)]: [super_fields] is the inherited
    method, which may query or change the database; an exception it
    raises is not handled here. *)
Definition _load_pos_data_fields {DB Cfg : Type}
    (super_fields : Cfg → state DB → result (list string) * state DB)
    (config_id : Cfg) (s : state DB) : result (list string) * state DB :=
  match super_fields config_id s with
  | (Ok fields, s1) => (Ok (ensure_type_fields fields), s1)
  | (Raise e, s1) => (Raise e, s1)
  end.

(** ** [_process_pos_ui_product_product] *)

(** The [config] argument: [None], [False]/[True], an integer id, or a
    [pos.config] recordset. *)
Inductive config_arg : Type :=
| CfgNone
| CfgBool (b : bool)
| CfgInt (z : Z)
| CfgRecords (rs : recordset).

(** [p[k]] *)
Definition getitem (p : gmap string pyval) (k : string) : result pyval :=
  match p !! k with
  | Some v => Ok v
  | None => Raise (KeyError k)
  end.

(** [[p["id"] for p in products]] *)
Fixpoint product_ids (products : list (gmap string pyval)) : result (list pyval) :=
  match products with
  | [] => Ok []
  | p :: rest =>
      match getitem p "id" with
      | Raise e => Raise e
      | Ok i =>
          match product_ids rest with
          | Raise e => Raise e
          | Ok ids => Ok (i :: ids)
          end
      end
  end.

(** [{q["product_id"][0]: q["quantity"] for q in quants}]: a later row
    with the same key replaces an earlier one. *)
Definition qty_by_product (quants : list group) : gmap Z Q :=
  foldl (λ m q, <[fst (g_product_id q) := g_quantity q]> m) ∅ quants.

(** The integer a value stands for as a dictionary key: Python hashes and
    compares [True] as [1] and [2.0] as [2]. *)
Definition int_key (v : pyval) : option Z :=
  match v with
  | VInt z => Some z
  | VBool b => Some (Z.b2z b)
  | VFloat q => if (Zpos (Qden (Qred q)) =? 1)%Z then Some (Qnum (Qred q)) else None
  | _ => None
  end.

(** [qty_by_product.get(key, 0.0)] *)
Definition qty_get (qty : gmap Z Q) (key : pyval) : pyval :=
  VFloat (default 0%Q (int_key key ≫= λ z, qty !! z)).

(** [p.get("is_storable") or p.get("type") == "product"] *)
Definition is_storable (p : gmap string pyval) : pyval :=
  py_or (dict_get p "is_storable") (VBool (eq_str (dict_get p "type") "product")).

(** The final loop [for p in products].  The dictionaries are updated in
    place, so when [p["id"]] raises the ones already visited keep their
    new key; the exception is returned next to the list. *)
Fixpoint assign_available_qty (qty : gmap Z Q) (products : list (gmap string pyval))
    : list (gmap string pyval) * option exn :=
  match products with
  | [] => ([], None)
  | p :: rest =>
      if truthy (is_storable p) then
        match getitem p "id" with
        | Raise e => (p :: rest, Some e)
        | Ok i =>
            let '(rest', e) := assign_available_qty qty rest in
            (<["pos_available_qty" := qty_get qty i]> p :: rest', e)
        end
      else
        let '(rest', e) := assign_available_qty qty rest in
        (<["pos_available_qty" := VNone]> p :: rest', e)
  end.

(** How a call of the method ended. *)
Inductive completion : Type :=
| Completed
| ReturnedEarly
| Raising (e : exn).

(** What a call leaves behind: the product dictionaries as they are when
    control leaves the method, and how it left. *)
Record outcome : Type := Outcome {
  out_products : list (gmap string pyval);
  out_completion : completion
}.

Section Method.
Context {DB : Type} (orm : ORM DB).

Definition browse (model : string) (arg : pyval) : M DB recordset :=
  call (EvBrowse model arg) (λ db, orm_browse orm db model arg).
Definition exists_ (rs : recordset) : M DB recordset :=
  call (EvExists rs) (λ db, orm_exists orm db rs).
Definition get (rs : recordset) (field : string) : M DB recordset :=
  call (EvGet rs field) (λ db, orm_get orm db rs field).
Definition read_group (model : string) (dom : list leaf) (fields groupby : list string)
    : M DB (list group) :=
  call (EvReadGroup model dom fields groupby)
       (λ db, orm_read_group orm db model dom fields groupby).

(** The first [if]/[elif] of the [try] block. *)
Definition config_recordset (config : config_arg) : M DB recordset :=
  match config with
  | CfgInt z => browse "pos.config" (VInt z)
  | CfgBool b => browse "pos.config" (VBool b)
  | CfgNone => return_
  | CfgRecords rs => if rs_truthy rs then mret rs else return_
  end.

(** [picking_type.default_location_src_id or
     (config.warehouse_id and config.warehouse_id.lot_stock_id)] *)
Definition location_expr (config picking_type : recordset) : M DB recordset :=
  src ← get picking_type "default_location_src_id";
  if rs_truthy src then mret src else
  warehouse ← get config "warehouse_id";
  if rs_truthy warehouse then
    warehouse' ← get config "warehouse_id";
    get warehouse' "lot_stock_id"
  else mret warehouse.

(** The body of the [try] block. *)
Definition try_body (config : config_arg) : M DB (recordset * recordset) :=
  config ← config_recordset config;
  found ← exists_ config;
  if negb (rs_truthy found) then return_ else
  picking_type ← get config "picking_type_id";
  if negb (rs_truthy picking_type) then return_ else
  location ← location_expr config picking_type;
  if negb (rs_truthy location) then return_ else
  mret (config, location).

(** The [try] statement: it leaves [config] rebound to a recordset and
    [location] bound to a non-empty one, or returns. *)
Definition resolve_location (config : config_arg) : M DB (recordset * recordset) :=
  try_except_return (try_body config).

(** From [product_ids = ...] to [qty_by_product = ...]. *)
Definition aggregate (products : list (gmap string pyval)) (config location : recordset)
    : M DB (gmap Z Q) :=
  ids ← lift (product_ids products);
  location_id ← lift (rs_id location);
  company ← get config "company_id";
  company_id ← lift (rs_id company);
  quants ← read_group "stock.quant"
             [("product_id", "in", OList ids);
              ("location_id", "child_of", OVal location_id);
              ("company_id", "=", OVal company_id)]
             ["product_id"; "quantity:sum"]
             ["product_id"];
  mret (qty_by_product quants).

(** Everything before the final loop. *)
Definition prepare (products : list (gmap string pyval)) (config : config_arg)
    : M DB (gmap Z Q) :=
  if bool_decide (products = []) then return_ else
  '(config, location) ← resolve_location config;
  aggregate products config location.

(** The method after its [super()] call: [products] is the list as
    [super()] left it. *)
Definition process_products (products : list (gmap string pyval)) (config : config_arg)
    (s : state DB) : outcome * state DB :=
  match prepare products config s with
  | (Val qty, s') =>
      let '(products', e) := assign_available_qty qty products in
      (Outcome products' (match e with None => Completed | Some e => Raising e end), s')
  | (Returned, s') => (Outcome products ReturnedEarly, s')
  | (Raised e, s') => (Outcome products (Raising e), s')
  end.

(** [_process_pos_ui_product_product(products, config)]: the inherited
    method runs first on the same list; when it raises, nothing of this
    module runs. *)
Definition _process_pos_ui_product_product
    (super_process : list (gmap string pyval) → config_arg → state DB →
                     list (gmap string pyval) * option exn * state DB)
    (products : list (gmap string pyval)) (config : config_arg)
    (s : state DB) : outcome * state DB :=
  match super_process products config s with
  | (products1, Some e, s1) => (Outcome products1 (Raising e), s1)
  | (products1, None, s1) => process_products products1 config s1
  end.

(** *** The configuration as the method reads it *)

(** The recordset [config] is bound to after the first [if]/[elif]:
    the one [browse] returns for an id, the argument itself for a
    non-empty recordset. *)
Inductive config_is (db : DB) : config_arg → recordset → Prop :=
| config_is_int (z : Z) (c : recordset) :
    orm_browse orm db "pos.config" (VInt z) = Ok c → config_is db (CfgInt z) c
| config_is_bool (b : bool) (c : recordset) :
    orm_browse orm db "pos.config" (VBool b) = Ok c → config_is db (CfgBool b) c
| config_is_records (c : recordset) :
    rs_truthy c = true → config_is db (CfgRecords c) c.

(** The stock location in the words of the specification:
    [config.picking_type_id.default_location_src_id] when that is set,
    and otherwise [config.warehouse_id.lot_stock_id] when
    [config.warehouse_id] is set; [None] when there is no such
    location.  A read that raises leaves the location undetermined. *)
Definition spec_location (db : DB) (c : recordset) : result (option recordset) :=
  match orm_get orm db c "picking_type_id" with
  | Raise e => Raise e
  | Ok picking_type =>
      match orm_get orm db picking_type "default_location_src_id" with
      | Raise e => Raise e
      | Ok src =>
          if rs_truthy src then Ok (Some src)
          else match orm_get orm db c "warehouse_id" with
               | Raise e => Raise e
               | Ok warehouse =>
                   if rs_truthy warehouse then
                     match orm_get orm db warehouse "lot_stock_id" with
                     | Raise e => Raise e
                     | Ok lot => Ok (if rs_truthy lot then Some lot else None)
                     end
                   else Ok None
               end
      end
  end.

End Method.

(** ** An in-memory database behind the ORM interface *)

Module Memory.

(** The columns of each table that the method reaches. *)
Record pos_config : Type := PosConfig {
  cfg_picking_type_id : option Z;
  cfg_warehouse_id : option Z;
  cfg_company_id : option Z
}.
Record picking_type : Type := PickingType { pt_default_location_src_id : option Z }.
Record warehouse : Type := Warehouse { wh_lot_stock_id : option Z }.
(** [stock.location]: [loc_location_id] is the parent location. *)
Record location : Type := Location { loc_location_id : option Z }.
Record quant : Type := Quant {
  q_product_id : Z;
  q_location_id : Z;
  q_company_id : option Z;
  q_quantity : Q
}.

Record database : Type := Database {
  pos_configs : gmap Z pos_config;
  picking_types : gmap Z picking_type;
  warehouses : gmap Z warehouse;
  locations : gmap Z location;
  product_names : gmap Z string;
  quants : list quant
}.

(** [browse(arg)]: a falsy argument is the empty recordset, an [int] a
    singleton, and anything else is iterated; the method only ever
    passes an [int] or a [bool]. *)
Definition browse_ids (arg : pyval) : result (list Z) :=
  if negb (truthy arg) then Ok []
  else match arg with
       | VInt z => Ok [z]
       | _ => Raise (TypeError "object is not iterable")
       end.

(** Ids in order of first occurrence. *)
Definition distinct (ids : list Z) : list Z :=
  foldl (λ acc i, if bool_decide (i ∈ acc) then acc else (acc ++ [i])%list) [] ids.

(** Reading a many2one column on a recordset: the targets of all
    records; a record that is not in the table raises. *)
Fixpoint column {R : Type} (model : string) (tbl : gmap Z R) (col : R → option Z)
    (ids : list Z) : result (list Z) :=
  match ids with
  | [] => Ok []
  | i :: rest =>
      match tbl !! i with
      | None => Raise (MissingError model)
      | Some r =>
          match column model tbl col rest with
          | Raise e => Raise e
          | Ok js => Ok (from_option (λ j, [j]) [] (col r) ++ js)%list
          end
      end
  end.

Definition many2one {R : Type} (model comodel : string) (tbl : gmap Z R)
    (col : R → option Z) (ids : list Z) : result recordset :=
  match column model tbl col ids with
  | Ok js => Ok (Recordset comodel (distinct js))
  | Raise e => Raise e
  end.

Definition get (db : database) (rs : recordset) (field : string) : result recordset :=
  let model := rs_model rs in
  let ids := rs_ids rs in
  if String.eqb model "pos.config" then
    if String.eqb field "picking_type_id" then
      many2one model "stock.picking.type" (pos_configs db) cfg_picking_type_id ids
    else if String.eqb field "warehouse_id" then
      many2one model "stock.warehouse" (pos_configs db) cfg_warehouse_id ids
    else if String.eqb field "company_id" then
      many2one model "res.company" (pos_configs db) cfg_company_id ids
    else Raise (AttributeError field)
  else if String.eqb model "stock.picking.type" then
    if String.eqb field "default_location_src_id" then
      many2one model "stock.location" (picking_types db) pt_default_location_src_id ids
    else Raise (AttributeError field)
  else if String.eqb model "stock.warehouse" then
    if String.eqb field "lot_stock_id" then
      many2one model "stock.location" (warehouses db) wh_lot_stock_id ids
    else Raise (AttributeError field)
  else Raise (AttributeError field).

Definition has_record (db : database) (model : string) (i : Z) : bool :=
  if String.eqb model "pos.config" then bool_decide (is_Some (pos_configs db !! i))
  else if String.eqb model "stock.picking.type" then bool_decide (is_Some (picking_types db !! i))
  else if String.eqb model "stock.warehouse" then bool_decide (is_Some (warehouses db !! i))
  else if String.eqb model "stock.location" then bool_decide (is_Some (locations db !! i))
  else false.

(** [recordset.exists()] *)
Definition exists_ (db : database) (rs : recordset) : result recordset :=
  Ok (Recordset (rs_model rs) (filter (λ i, has_record db (rs_model rs) i = true) (rs_ids rs))).

Definition browse (db : database) (model : string) (arg : pyval) : result recordset :=
  match browse_ids arg with
  | Ok ids => Ok (Recordset model ids)
  | Raise e => Raise e
  end.

(** [l] is [root] or one of its descendants: the parent chain of [l],
    followed for at most [fuel] steps, meets [root]. *)
Fixpoint descends (locs : gmap Z location) (fuel : nat) (root l : Z) : bool :=
  if (l =? root)%Z then true
  else match fuel with
       | O => false
       | S fuel' =>
           match locs !! l with
           | Some (Location (Some parent)) => descends locs fuel' root parent
           | _ => false
           end
       end.

(** [("location_id", "child_of", root)] on a quant at location [l]. *)
Definition child_of (db : database) (root l : Z) : bool :=
  descends (locations db) (size (locations db)) root l.

(** [SUM(quantity)] *)
Definition sum_quantity (qs : list quant) : Q :=
  foldr (λ q acc, Qplus (q_quantity q) acc) 0%Q qs.

Fixpoint int_list (vs : list pyval) : option (list Z) :=
  match vs with
  | [] => Some []
  | VInt z :: rest => cons z <$> int_list rest
  | _ :: _ => None
  end.

(** The three leaves the module uses, as predicates on a quant. *)
Definition eval_leaf (db : database) (lf : leaf) : option (quant → bool) :=
  let '(field, op, value) := lf in
  if String.eqb field "product_id" && String.eqb op "in" then
    match value with
    | OList vs => (λ ids q, bool_decide (q_product_id q ∈ ids)) <$> int_list vs
    | _ => None
    end
  else if String.eqb field "location_id" && String.eqb op "child_of" then
    match value with
    | OVal (VInt root) => Some (λ q, child_of db root (q_location_id q))
    | _ => None
    end
  else if String.eqb field "company_id" && String.eqb op "=" then
    match value with
    | OVal (VInt c) => Some (λ q, bool_decide (q_company_id q = Some c))
    | OVal (VBool false) => Some (λ q, bool_decide (q_company_id q = None))
    | _ => None
    end
  else None.

(** A domain is the conjunction of its leaves. *)
Fixpoint eval_domain (db : database) (dom : list leaf) : option (quant → bool) :=
  match dom with
  | [] => Some (λ _, true)
  | lf :: rest =>
      match eval_leaf db lf, eval_domain db rest with
      | Some f, Some g => Some (λ q, f q && g q)
      | _, _ => None
      end
  end.

(** One group per product that has a matching quant. *)
Definition group_by_product (db : database) (qs : list quant) : list group :=
  (λ pid, Group (pid, default "" (product_names db !! pid))
                (sum_quantity (filter (λ q, q_product_id q = pid) qs)))
    <$> distinct (q_product_id <$> qs).

(** [read_group(domain, ["product_id", "quantity:sum"], ["product_id"])]
    on [stock.quant]; other queries are not implemented. *)
Definition read_group (db : database) (model : string) (dom : list leaf)
    (fields groupby : list string) : result (list group) :=
  if bool_decide (model = "stock.quant")
     && bool_decide (fields = ["product_id"; "quantity:sum"])
     && bool_decide (groupby = ["product_id"]) then
    match eval_domain db dom with
    | Some matches => Ok (group_by_product db (filter (λ q, matches q = true) (quants db)))
    | None => Raise (ValueError "Invalid domain")
    end
  else Raise (UserError "unsupported read_group").

Definition orm : ORM database := {|
  orm_browse := browse;
  orm_exists := exists_;
  orm_get := get;
  orm_read_group := read_group
|}.

End Memory.

(** ** Notions the properties are stated with *)

(** The suffix [_load_pos_data_fields] appends for one name. *)
Definition missing (fields : list string) (extra : string) : list string :=
  if bool_decide (extra ∈ fields) then [] else [extra].

(** A body that only queries: the database it ends with is the one it
    started with, and the log has grown by events that satisfy [P]. *)
Definition queries_only {DB A : Type} (P : event → Prop) (m : M DB A) : Prop :=
  ∀ s, st_db (m s).2 = st_db s
       ∧ ∃ evs, st_log (m s).2 = (st_log s ++ evs)%list ∧ Forall P evs.

(** The dictionary [p] after its turn in the final loop. *)
Definition with_available_qty (qty : gmap Z Q) (p : gmap string pyval)
    : gmap string pyval :=
  <["pos_available_qty" :=
      if truthy (is_storable p) then qty_get qty (dict_get p "id") else VNone]> p.

(** [p'] is [p] up to the key [pos_available_qty]. *)
Definition same_but_qty (p p' : gmap string pyval) : Prop :=
  ∀ k : string, k ≠ "pos_available_qty" → p' !! k = p !! k.

(** The argument [browse] receives when [config] is an [int]. *)
Definition browse_arg (config : config_arg) : option pyval :=
  match config with
  | CfgInt z => Some (VInt z)
  | CfgBool b => Some (VBool b)
  | CfgNone | CfgRecords _ => None
  end.

(** The situations in which the method cannot proceed: no products, a
    falsy or non-existent configuration, no picking type, no location, or
    an exception while the configuration or the location is read. *)
Inductive cannot_proceed {DB : Type} (orm : ORM DB) (db : DB)
    (products : list (gmap string pyval)) (config : config_arg) : Prop :=
| no_products :
    products = [] → cannot_proceed orm db products config
| config_none :
    config = CfgNone → cannot_proceed orm db products config
| config_empty (rs : recordset) :
    config = CfgRecords rs → rs_truthy rs = false →
    cannot_proceed orm db products config
| browse_raises (arg : pyval) (e : exn) :
    browse_arg config = Some arg → orm_browse orm db "pos.config" arg = Raise e →
    cannot_proceed orm db products config
| exists_raises (c : recordset) (e : exn) :
    config_is orm db config c → orm_exists orm db c = Raise e →
    cannot_proceed orm db products config
| config_missing (c found : recordset) :
    config_is orm db config c → orm_exists orm db c = Ok found →
    rs_truthy found = false →
    cannot_proceed orm db products config
| picking_type_raises (c : recordset) (e : exn) :
    config_is orm db config c → orm_get orm db c "picking_type_id" = Raise e →
    cannot_proceed orm db products config
| no_picking_type (c pt : recordset) :
    config_is orm db config c → orm_get orm db c "picking_type_id" = Ok pt →
    rs_truthy pt = false →
    cannot_proceed orm db products config
| location_raises (c : recordset) (e : exn) :
    config_is orm db config c → spec_location orm db c = Raise e →
    cannot_proceed orm db products config
| no_location (c : recordset) :
    config_is orm db config c → spec_location orm db c = Ok None →
    cannot_proceed orm db products config.

(** The query the method sends for the listed products, a location and a
    company. *)
Definition quant_domain (ids : list pyval) (location_id company_id : pyval) : list leaf :=
  [("product_id", "in", OList ids);
   ("location_id", "child_of", OVal location_id);
   ("company_id", "=", OVal company_id)].

(** The quants the specification sums for a product: those of the
    product, at a location in the hierarchy of [root], of the company. *)
Definition on_hand (db : Memory.database) (pid root : Z) (company : option Z)
    : list Memory.quant :=
  filter (λ q, Memory.q_product_id q = pid
               ∧ Memory.child_of db root (Memory.q_location_id q) = true
               ∧ Memory.q_company_id q = company)
         (Memory.quants db).
(** The value [recordset.id] takes on the company of a configuration. *)
Definition company_value (company : option Z) : pyval :=
  match company with
  | Some cid => VInt cid
  | None => VBool false
  end.

(** The quants the query of the method selects for the product ids [zs]. *)
Definition matches (db : Memory.database) (zs : list Z) (root : Z)
    (company : option Z) (q : Memory.quant) : Prop :=
  Memory.q_product_id q ∈ zs
  ∧ Memory.child_of db root (Memory.q_location_id q) = true
  ∧ Memory.q_company_id q = company.

(** A product dictionary as [search_read] returns it: with an integer id. *)
Definition has_int_id (p : gmap string pyval) : Prop :=
  ∃ z : Z, p !! "id" = Some (VInt z).

(** ** A shop to run the method on *)

Module Shop.
Import Memory.

(** Configuration 1 sells from location 100 through its picking type;
    configuration 2 has no picking type; configuration 3 falls back to the
    stock location 101 of its warehouse; the picking type of
    configuration 4 is gone; configuration 6 belongs to company 2 and
    sells from location 101.  Location 103 lies under 102, which lies
    under 100. *)
Definition db : database := {|
  pos_configs :=
    {[ 1%Z := PosConfig (Some 10%Z) (Some 20%Z) (Some 1%Z);
       2%Z := PosConfig None (Some 20%Z) (Some 1%Z);
       3%Z := PosConfig (Some 11%Z) (Some 20%Z) (Some 1%Z);
       4%Z := PosConfig (Some 99%Z) None None;
       6%Z := PosConfig (Some 12%Z) (Some 20%Z) (Some 2%Z) ]};
  picking_types :=
    {[ 10%Z := PickingType (Some 100%Z); 11%Z := PickingType None;
       12%Z := PickingType (Some 101%Z) ]};
  warehouses := {[ 20%Z := Warehouse (Some 101%Z) ]};
  locations :=
    {[ 100%Z := Location None; 101%Z := Location None;
       102%Z := Location (Some 100%Z); 103%Z := Location (Some 102%Z) ]};
  product_names := {[ 7%Z := "Desk"; 8%Z := "Lamp"; 9%Z := "Delivery" ]};
  quants :=
    [ Quant 7 100 (Some 1%Z) (3 # 1);
      Quant 7 103 (Some 1%Z) (5 # 2);
      Quant 8 101 (Some 1%Z) (1 # 1);
      Quant 7 100 (Some 2%Z) (9 # 1);
      Quant 9 102 (Some 1%Z) (4 # 1) ]
|}.

Definition desk : gmap string pyval := {[ "id" := VInt 7; "type" := VStr "product" ]}.
Definition lamp : gmap string pyval := {[ "id" := VInt 8; "is_storable" := VBool true ]}.
Definition delivery : gmap string pyval := {[ "id" := VInt 9; "type" := VStr "service" ]}.

Definition products : list (gmap string pyval) := [desk; lamp; delivery].

(** An inherited method that leaves the list and the state as they are. *)
Definition super_process (products : list (gmap string pyval)) (config : config_arg)
    (s : state database) : list (gmap string pyval) * option exn * state database :=
  (products, None, s).

(** An inherited field list. *)
Definition super_fields (config_id : Z) (s : state database)
    : result (list string) * state database :=
  (Ok ["id"; "display_name"; "type"], s).

Definition config1 : recordset := Recordset "pos.config" [1%Z].
Definition location100 : recordset := Recordset "stock.location" [100%Z].

(** The ORM calls of the [try] block for configuration 1. *)
Definition resolved_log : list event :=
  [EvBrowse "pos.config" (VInt 1);
   EvExists config1;
   EvGet config1 "picking_type_id";
   EvGet (Recordset "stock.picking.type" [10%Z]) "default_location_src_id"].

(** How a run on the shop ends, and the quantity each product carries. *)
Definition run (config : config_arg) : completion * list (option pyval) :=
  let out := (process_products orm products config (State db [])).1 in
  (out_completion out, (λ p, p !! "pos_available_qty") <$> out_products out).

End Shop.

(** ** The final loop on the objects of the list *)

(** The list holds references to dictionary objects, and one object may
    be listed more than once.  [heap] gives the dictionary each object
    holds, [refs] is the list; [p[k] = v] stores the updated dictionary
    at the object. *)
Definition store (heap : nat → gmap string pyval) (r : nat) (p : gmap string pyval)
    : nat → gmap string pyval :=
  λ r', if Nat.eqb r' r then p else heap r'.

Fixpoint assign_in_place (qty : gmap Z Q) (refs : list nat)
    (heap : nat → gmap string pyval) : (nat → gmap string pyval) * option exn :=
  match refs with
  | [] => (heap, None)
  | r :: rest =>
      let p := heap r in
      if truthy (is_storable p) then
        match getitem p "id" with
        | Raise e => (heap, Some e)
        | Ok i =>
            assign_in_place qty rest
              (store heap r (<["pos_available_qty" := qty_get qty i]> p))
        end
      else
        assign_in_place qty rest (store heap r (<["pos_available_qty" := VNone]> p))
  end.

(** The number of [read_group] calls in a log. *)
Definition read_group_calls (evs : list event) : nat :=
  length (filter (λ ev, is_read_group ev = true) evs).

(** The reads of [config.warehouse_id] in a log. *)
Definition reads_warehouse (ev : event) : bool :=
  match ev with
  | EvGet _ field => String.eqb field "warehouse_id"
  | _ => false
  end.

(** A body that makes at most [n] ORM calls. *)
Definition calls_at_most {DB A : Type} (n : nat) (m : M DB A) : Prop :=
  ∀ s, ∃ evs, st_log (m s).2 = (st_log s ++ evs)%list ∧ (length evs ≤ n)%nat.

(** * Properties *)

(** ** The field list *)

Lemma ensure_type_fields_app (fields : list string) :
  ensure_type_fields fields
  = (fields ++ missing fields "type" ++ missing fields "is_storable")%list.
Proof.
  unfold ensure_type_fields, append_if_absent, missing. simpl.
  destruct (bool_decide ("type" ∈ fields)) eqn:Ht.
  - rewrite app_nil_l. destruct (bool_decide ("is_storable" ∈ fields)); [|done].
    by rewrite app_nil_r.
  - rewrite bool_decide_eq_false in Ht.
    destruct (bool_decide ("is_storable" ∈ fields)) eqn:Hs.
    + rewrite bool_decide_eq_true in Hs.
      rewrite bool_decide_true by (apply elem_of_app; by left).
      by rewrite app_nil_r.
    + rewrite bool_decide_eq_false in Hs.
      rewrite bool_decide_false.
      * by rewrite <- app_assoc.
      * rewrite elem_of_app, list_elem_of_singleton. intros [?|?]; [done|discriminate].
Qed.

Lemma ensure_type_fields_has (fields : list string) :
  "type" ∈ ensure_type_fields fields ∧ "is_storable" ∈ ensure_type_fields fields.
Proof.
  rewrite ensure_type_fields_app. unfold missing.
  split; repeat case_bool_decide; rewrite !elem_of_app, ?list_elem_of_singleton; auto.
Qed.

Lemma ensure_type_fields_fixed (fields : list string) :
  "type" ∈ fields → "is_storable" ∈ fields → ensure_type_fields fields = fields.
Proof.
  intros Ht Hs. rewrite ensure_type_fields_app. unfold missing.
  rewrite !bool_decide_true by done. by rewrite !app_nil_r.
Qed.

Lemma ensure_type_fields_NoDup (fields : list string) :
  NoDup fields → NoDup (ensure_type_fields fields).
Proof.
  intros Hnd. rewrite ensure_type_fields_app. unfold missing.
  repeat case_bool_decide; rewrite ?app_nil_r; simpl; try done.
  - apply NoDup_app. split_and!; [done| |apply NoDup_singleton].
    intros x Hx ->%list_elem_of_singleton. done.
  - apply NoDup_app. split_and!; [done| |apply NoDup_singleton].
    intros x Hx ->%list_elem_of_singleton. done.
  - apply NoDup_app. split_and!; [done| |].
    + intros x Hx Hin. apply elem_of_cons in Hin as [->|Hin]; [done|].
      apply list_elem_of_singleton in Hin as ->. done.
    + apply NoDup_cons. split; [|apply NoDup_singleton].
      rewrite list_elem_of_singleton. discriminate.
Qed.

(** C9. [_load_pos_data_fields] returns the list of [super()] in its
    order, followed by "type" and then "is_storable", each appended only
    when absent.  So the result contains both names, a list without
    duplicates stays without duplicates, a list that already has both
    names comes back unchanged, and extending twice is extending once. *)
Theorem load_fields_appends_absent {DB Cfg : Type}
    (super_fields : Cfg → state DB → result (list string) * state DB)
    (config_id : Cfg) (s s1 : state DB) (fields : list string) :
  super_fields config_id s = (Ok fields, s1) →
  ∃ res : list string,
    (_load_pos_data_fields super_fields config_id s).1 = Ok res
    ∧ res = (fields ++ missing fields "type" ++ missing fields "is_storable")%list
    ∧ "type" ∈ res ∧ "is_storable" ∈ res
    ∧ (NoDup fields → NoDup res)
    ∧ ("type" ∈ fields → "is_storable" ∈ fields → res = fields)
    ∧ ensure_type_fields res = res.
Proof.
  intros Hsuper. exists (ensure_type_fields fields).
  unfold _load_pos_data_fields. rewrite Hsuper. simpl.
  destruct (ensure_type_fields_has fields) as [Ht Hs].
  split_and!; auto using ensure_type_fields_app, ensure_type_fields_NoDup,
    ensure_type_fields_fixed.
Qed.

(** ** Running a method body *)

Section Running.
Context {DB : Type}.

Lemma run_bind {A B} (m : M DB A) (k : A → M DB B) (s : state DB) :
  (m ≫= k) s = match m s with
               | (Val a, s') => k a s'
               | (Returned, s') => (Returned, s')
               | (Raised e, s') => (Raised e, s')
               end.
Proof. reflexivity. Qed.

Lemma run_ret {A} (a : A) (s : state DB) : (mret a : M DB A) s = (Val a, s).
Proof. reflexivity. Qed.

Lemma queries_only_weaken {A} (P P' : event → Prop) (m : M DB A) :
  (∀ ev, P ev → P' ev) → queries_only P m → queries_only P' m.
Proof.
  intros HP Hm s. destruct (Hm s) as [Hdb (evs & Hlog & Hevs)].
  split; [done|]. exists evs. split; [done|]. by eapply Forall_impl.
Qed.

Lemma queries_only_silent {A} (P : event → Prop) (m : M DB A) :
  (∀ s, (m s).2 = s) → queries_only P m.
Proof.
  intros Hm s. rewrite Hm. split; [done|]. exists []. by rewrite app_nil_r.
Qed.

Lemma queries_only_ret {A} (P : event → Prop) (a : A) :
  queries_only P (mret a : M DB A).
Proof. by apply queries_only_silent. Qed.

Lemma queries_only_return {A} (P : event → Prop) :
  queries_only P (return_ : M DB A).
Proof. by apply queries_only_silent. Qed.

Lemma queries_only_lift {A} (P : event → Prop) (r : result A) :
  queries_only P (lift r : M DB A).
Proof. by apply queries_only_silent. Qed.

Lemma queries_only_call {A} (P : event → Prop) (ev : event) (q : DB → result A) :
  P ev → queries_only P (call ev q).
Proof. intros Hev s. split; [done|]. exists [ev]. split; [done|]. by constructor. Qed.

Lemma queries_only_bind {A B} (P : event → Prop) (m : M DB A) (k : A → M DB B) :
  queries_only P m → (∀ a, queries_only P (k a)) → queries_only P (m ≫= k).
Proof.
  intros Hm Hk s. rewrite run_bind.
  destruct (Hm s) as [Hdb (evs & Hlog & Hevs)].
  destruct (m s) as [[a| |e] s']; simpl in *; [|by eauto..].
  destruct (Hk a s') as [Hdb' (evs' & Hlog' & Hevs')].
  split; [congruence|]. exists (evs ++ evs')%list. split.
  - by rewrite Hlog', Hlog, app_assoc.
  - by apply Forall_app.
Qed.

Lemma queries_only_try {A} (P : event → Prop) (m : M DB A) :
  queries_only P m → queries_only P (try_except_return m).
Proof.
  intros Hm s. unfold try_except_return.
  specialize (Hm s). by destruct (m s) as [[a| |e] s'].
Qed.

Lemma queries_only_if {A} (P : event → Prop) (b : bool) (m1 m2 : M DB A) :
  queries_only P m1 → queries_only P m2 → queries_only P (if b then m1 else m2).
Proof. by destruct b. Qed.

End Running.

Ltac queries :=
  repeat first
    [ apply queries_only_bind; [|intros ?]
    | apply queries_only_if
    | apply queries_only_try
    | apply queries_only_call; done
    | apply queries_only_ret
    | apply queries_only_return
    | apply queries_only_lift ].

(** ** The final loop *)

Lemma same_but_qty_refl (p : gmap string pyval) : same_but_qty p p.
Proof. by intros k _. Qed.

Lemma same_but_qty_insert (p : gmap string pyval) (v : pyval) :
  same_but_qty p (<["pos_available_qty" := v]> p).
Proof. intros k Hk. by rewrite lookup_insert_ne. Qed.

Lemma same_but_qty_all_refl (products : list (gmap string pyval)) :
  Forall2 same_but_qty products products.
Proof. induction products; constructor; auto using same_but_qty_refl. Qed.

Lemma assign_available_qty_frame (qty : gmap Z Q) (products : list (gmap string pyval)) :
  Forall2 same_but_qty products (assign_available_qty qty products).1.
Proof.
  induction products as [|p rest IH]; simpl; [constructor|].
  destruct (assign_available_qty qty rest) as [rest' e].
  destruct (truthy (is_storable p)).
  - unfold getitem. destruct (p !! "id"); simpl.
    + constructor; [apply same_but_qty_insert|done].
    + apply same_but_qty_all_refl.
  - constructor; [apply same_but_qty_insert|done].
Qed.

(** Once every [p["id"]] has been read for the query, the loop cannot
    raise, and it visits every dictionary. *)
Lemma assign_available_qty_total (qty : gmap Z Q) (products : list (gmap string pyval))
    (ids : list pyval) :
  product_ids products = Ok ids →
  assign_available_qty qty products = (with_available_qty qty <$> products, None).
Proof.
  revert ids. induction products as [|p rest IH]; intros ids Hids; [done|].
  simpl in *. unfold getitem in *. unfold with_available_qty at 1. unfold dict_get.
  destruct (p !! "id") as [i|] eqn:Hi; [|done]. simpl.
  destruct (product_ids rest) as [ids'|] eqn:Hrest; [|done].
  rewrite (IH ids' eq_refl).
  by destruct (truthy (is_storable p)).
Qed.

Lemma with_available_qty_lookup (qty : gmap Z Q) (p : gmap string pyval) :
  with_available_qty qty p !! "pos_available_qty"
  = Some (if truthy (is_storable p) then qty_get qty (dict_get p "id") else VNone).
Proof. unfold with_available_qty. by rewrite lookup_insert_eq. Qed.

Lemma with_available_qty_keeps (qty : gmap Z Q) (p : gmap string pyval) (k : string) :
  k ≠ "pos_available_qty" →
  dict_get (with_available_qty qty p) k = dict_get p k.
Proof.
  intros Hk. unfold dict_get, with_available_qty. by rewrite lookup_insert_ne.
Qed.

(** The value a turn of the loop writes depends on keys the loop does not
    write, so a dictionary that is listed twice, and hence visited twice,
    is after the second visit what it was after the first. *)
Lemma with_available_qty_again (qty : gmap Z Q) (p : gmap string pyval) :
  with_available_qty qty (with_available_qty qty p) = with_available_qty qty p.
Proof.
  unfold with_available_qty at 1. unfold is_storable.
  rewrite !with_available_qty_keeps by done.
  fold (is_storable p). unfold with_available_qty. by rewrite insert_insert_eq.
Qed.

(** ** Resolving the location and querying *)

Ltac unfold_body_in H :=
  cbv beta iota delta
    [resolve_location try_except_return try_body config_recordset
     location_expr aggregate browse exists_ get read_group call return_ lift
     mbind M_bind bind mret M_ret pure] in H;
  simpl in H.

Ltac unfold_body :=
  cbv beta iota delta
    [resolve_location try_except_return try_body config_recordset
     location_expr aggregate browse exists_ get read_group call return_ lift
     mbind M_bind bind mret M_ret pure];
  simpl.

Ltac run_in H :=
  unfold_body_in H; repeat first [progress simplify_eq/= | case_match].

Ltac use_eqs :=
  repeat match goal with
         | E : ?q = _ |- context [?q] => rewrite E; simpl
         end.

Section Resolution.
Context {DB : Type} (orm : ORM DB).

Lemma resolve_location_queries_only (config : config_arg) :
  queries_only (λ ev, is_read_group ev = false) (resolve_location orm config).
Proof.
  unfold resolve_location, try_body, config_recordset, location_expr,
    browse, exists_, get.
  destruct config; queries.
Qed.

Lemma aggregate_queries_only (products : list (gmap string pyval)) (c loc : recordset) :
  queries_only (λ _, True) (aggregate orm products c loc).
Proof. unfold aggregate, read_group, get. queries. Qed.

Lemma prepare_queries_only (products : list (gmap string pyval)) (config : config_arg) :
  queries_only (λ _, True) (prepare orm products config).
Proof.
  unfold prepare. apply queries_only_if; [queries|].
  apply queries_only_bind.
  - eapply queries_only_weaken; [|apply resolve_location_queries_only]. done.
  - intros [c loc]. apply aggregate_queries_only.
Qed.

Lemma process_products_state
    (products : list (gmap string pyval)) (config : config_arg) (s : state DB) :
  (process_products orm products config s).2 = (prepare orm products config s).2.
Proof.
  unfold process_products.
  destruct (prepare orm products config s) as [[qty| |e] s']; simpl; try done.
  by destruct (assign_available_qty qty products).
Qed.

(** The [try] statement never lets an exception out. *)
Lemma resolve_location_no_raise (config : config_arg) (s : state DB) (e : exn) :
  (resolve_location orm config s).1 ≠ Raised e.
Proof.
  unfold resolve_location, try_except_return.
  by destruct (try_body orm config s) as [[a| |e'] s'].
Qed.

Lemma resolve_location_val (config : config_arg) (s : state DB) (c loc : recordset) :
  (resolve_location orm config s).1 = Val (c, loc)
  ↔ config_is orm (st_db s) config c
    ∧ (∃ found, orm_exists orm (st_db s) c = Ok found ∧ rs_truthy found = true)
    ∧ (∃ pt, orm_get orm (st_db s) c "picking_type_id" = Ok pt ∧ rs_truthy pt = true)
    ∧ spec_location orm (st_db s) c = Ok (Some loc).
Proof.
  split.
  - intros H. unfold spec_location.
    destruct config; run_in H.
    all: split_and!; [by constructor|eexists; split; [done|by apply negb_false_iff]..|].
    all: by use_eqs.
  - intros (Hc & (found & Hex & Hfound) & (pt & Hpt & Hptt) & Hspec).
    unfold spec_location in Hspec. rewrite Hpt in Hspec.
    destruct Hc; unfold_body; use_eqs.
    all: repeat (case_match; simplify_eq/=); use_eqs.
    all: rewrite ?negb_true_iff, ?negb_false_iff in *; congruence.
Qed.

Lemma spec_location_truthy (db : DB) (c loc : recordset) :
  spec_location orm db c = Ok (Some loc) → rs_truthy loc = true.
Proof.
  unfold spec_location. intros H.
  repeat (case_match; simplify_eq/=); done.
Qed.

Lemma resolve_location_log (config : config_arg) (s s1 : state DB) (c loc : recordset) :
  resolve_location orm config s = (Val (c, loc), s1) →
  st_db s1 = st_db s
  ∧ ∃ reads, st_log s1 = (st_log s ++ reads)%list
             ∧ Forall (λ ev, is_read_group ev = false) reads
             ∧ EvExists c ∈ reads
             ∧ EvGet c "picking_type_id" ∈ reads.
Proof.
  intros H. split.
  - pose proof (resolve_location_queries_only config s) as [Hdb _].
    by rewrite H in Hdb.
  - destruct config; run_in H.
    all: rewrite <- ?app_assoc; simpl.
    all: eexists; split; [reflexivity|].
    all: split; [by repeat constructor|set_solver].
Qed.

Lemma prepare_val (products : list (gmap string pyval)) (config : config_arg)
    (s s' : state DB) (qty : gmap Z Q) :
  prepare orm products config s = (Val qty, s') →
  products ≠ []
  ∧ ∃ c loc s1 ids lid comp cid quants,
      resolve_location orm config s = (Val (c, loc), s1)
      ∧ product_ids products = Ok ids
      ∧ rs_id loc = Ok lid
      ∧ orm_get orm (st_db s) c "company_id" = Ok comp
      ∧ rs_id comp = Ok cid
      ∧ orm_read_group orm (st_db s) "stock.quant" (quant_domain ids lid cid)
          ["product_id"; "quantity:sum"] ["product_id"] = Ok quants
      ∧ qty = qty_by_product quants
      ∧ s' = State (st_db s)
               (st_log s1 ++ [EvGet c "company_id"]
                ++ [EvReadGroup "stock.quant" (quant_domain ids lid cid)
                      ["product_id"; "quantity:sum"] ["product_id"]]).
Proof.
  unfold prepare. case_bool_decide as Hne; [done|].
  rewrite run_bind.
  destruct (resolve_location orm config s) as [[[c loc]| |e] s1] eqn:Hres; [|done..].
  intros H. split; [done|].
  destruct (resolve_location_log _ _ _ _ _ Hres) as [Hdb _].
  run_in H. rewrite Hdb in *. rewrite <- app_assoc.
  by repeat eexists.
Qed.

Lemma prepare_run (products : list (gmap string pyval)) (config : config_arg)
    (s s1 : state DB) (c loc comp : recordset) (ids : list pyval) (lid cid : pyval)
    (quants : list group) :
  products ≠ [] →
  resolve_location orm config s = (Val (c, loc), s1) →
  product_ids products = Ok ids →
  rs_id loc = Ok lid →
  orm_get orm (st_db s) c "company_id" = Ok comp →
  rs_id comp = Ok cid →
  orm_read_group orm (st_db s) "stock.quant" (quant_domain ids lid cid)
    ["product_id"; "quantity:sum"] ["product_id"] = Ok quants →
  (prepare orm products config s).1 = Val (qty_by_product quants).
Proof.
  intros Hne Hres Hids Hlid Hcomp Hcid Hquants.
  destruct (resolve_location_log _ _ _ _ _ Hres) as [Hdb _].
  unfold prepare. rewrite bool_decide_false by done.
  rewrite run_bind, Hres. unfold_body. rewrite Hdb.
  unfold quant_domain in Hquants. by use_eqs.
Qed.

(** Whatever stops the method before the loop leaves the list alone; a run
    that reaches the loop finishes it. *)
Lemma process_products_cases (products : list (gmap string pyval)) (config : config_arg)
    (s : state DB) :
  match (prepare orm products config s).1 with
  | Val qty =>
      (process_products orm products config s).1
      = Outcome (with_available_qty qty <$> products) Completed
  | Returned =>
      (process_products orm products config s).1 = Outcome products ReturnedEarly
  | Raised e =>
      (process_products orm products config s).1 = Outcome products (Raising e)
  end.
Proof.
  unfold process_products.
  destruct (prepare orm products config s) as [[qty| |e] s'] eqn:Hprep; simpl; [|done..].
  apply prepare_val in Hprep as (_ & c & loc & s1 & ids & lid & comp & cid & quants
                                  & _ & Hids & _).
  by rewrite (assign_available_qty_total qty products ids Hids).
Qed.

Lemma cannot_proceed_returns (products : list (gmap string pyval)) (config : config_arg)
    (s : state DB) :
  cannot_proceed orm (st_db s) products config →
  (prepare orm products config s).1 = Returned.
Proof.
  intros Hcp. unfold prepare. case_bool_decide as Hne; [done|].
  rewrite run_bind.
  destruct (resolve_location orm config s) as [[[c loc]| |e] s1] eqn:Hres; [|done|].
  - exfalso.
    assert ((resolve_location orm config s).1 = Val (c, loc)) as Hval by by rewrite Hres.
    apply resolve_location_val in Hval
      as (Hc & (found & Hex & Hfound) & (pt & Hpt & Hptt) & Hspec).
    destruct Hcp as [?| ?|rs ? ?|arg e ? ?|c' e Hc' ?|c' f' Hc' ? ?|c' e Hc' ?
                     |c' pt' Hc' ? ?|c' e Hc' ?|c' Hc' ?];
      try done; simplify_eq.
    all: try (inversion Hc; simplify_eq/=; congruence).
    all: inversion Hc; inversion Hc'; simplify_eq/=; congruence.
  - exfalso. eapply resolve_location_no_raise. by rewrite Hres.
Qed.

Lemma aggregate_not_returned (products : list (gmap string pyval)) (c loc : recordset)
    (s : state DB) :
  (aggregate orm products c loc s).1 ≠ Returned.
Proof. unfold_body. repeat (case_match; simplify_eq/=); done. Qed.

Lemma aggregate_log (products : list (gmap string pyval)) (c loc : recordset)
    (s : state DB) :
  ∃ evs, st_log (aggregate orm products c loc s).2 = (st_log s ++ evs)%list
         ∧ ∀ model dom fields groupby,
             EvReadGroup model dom fields groupby ∈ evs →
             ∃ ids lid cid, product_ids products = Ok ids ∧ rs_id loc = Ok lid
                            ∧ dom = quant_domain ids lid cid.
Proof.
  unfold_body.
  destruct (product_ids products) as [ids|] eqn:Hids; simpl;
    [|exists []; rewrite app_nil_r; split; [done|set_solver]].
  destruct (rs_id loc) as [lid|] eqn:Hlid; simpl;
    [|exists []; rewrite app_nil_r; split; [done|set_solver]].
  destruct (orm_get orm (st_db s) c "company_id") as [comp|]; simpl;
    [|eexists [_]; split; [done|by intros ? ? ? ? [=]%list_elem_of_singleton]].
  destruct (rs_id comp) as [cid|]; simpl;
    [|eexists [_]; split; [done|by intros ? ? ? ? [=]%list_elem_of_singleton]].
  eexists [_; _]. split.
  - by destruct (orm_read_group _ _ _ _ _ _); simpl; rewrite <- app_assoc.
  - intros model dom fields groupby Hin.
    apply elem_of_cons in Hin as [Hin|Hin]; [done|].
    apply list_elem_of_singleton in Hin. simplify_eq. by exists ids, lid, cid.
Qed.

Lemma prepare_read_group (products : list (gmap string pyval)) (config : config_arg)
    (s : state DB) (evs : list event) (model : string) (dom : list leaf)
    (fields groupby : list string) :
  st_log (prepare orm products config s).2 = (st_log s ++ evs)%list →
  EvReadGroup model dom fields groupby ∈ evs →
  ∃ c loc ids lid cid,
    (resolve_location orm config s).1 = Val (c, loc)
    ∧ product_ids products = Ok ids ∧ rs_id loc = Ok lid
    ∧ dom = quant_domain ids lid cid.
Proof.
  unfold prepare. case_bool_decide as Hne.
  { simpl. intros Hlog Hin. rewrite <- (app_nil_r (st_log s)) in Hlog at 1.
    apply app_inv_head in Hlog. subst evs. by apply elem_of_nil in Hin. }
  rewrite run_bind.
  pose proof (resolve_location_queries_only config s) as [_ (reads & Hreads & Hno)].
  destruct (resolve_location orm config s) as [[[c loc]| |e] s1] eqn:Hres; simpl in *.
  - destruct (aggregate_log products c loc s1) as (evs' & Hlog' & Hrg).
    intros Hlog Hin. rewrite Hlog', Hreads, <- app_assoc in Hlog.
    apply app_inv_head in Hlog. subst evs.
    apply elem_of_app in Hin as [Hin|Hin].
    + rewrite Forall_forall in Hno. by apply Hno in Hin.
    + destruct (Hrg _ _ _ _ Hin) as (ids & lid & cid & ? & ? & ?).
      by exists c, loc, ids, lid, cid.
  - intros Hlog Hin. rewrite Hreads in Hlog. apply app_inv_head in Hlog. subst evs.
    rewrite Forall_forall in Hno. by apply Hno in Hin.
  - intros Hlog Hin. rewrite Hreads in Hlog. apply app_inv_head in Hlog. subst evs.
    rewrite Forall_forall in Hno. by apply Hno in Hin.
Qed.

Lemma prepare_after_resolve (products : list (gmap string pyval)) (config : config_arg)
    (s s1 : state DB) (c loc : recordset) :
  products ≠ [] →
  resolve_location orm config s = (Val (c, loc), s1) →
  (prepare orm products config s).1 ≠ Returned.
Proof.
  intros Hne Hres. unfold prepare. rewrite bool_decide_false by done.
  rewrite run_bind, Hres. apply aggregate_not_returned.
Qed.

Lemma is_storable_truthy (p : gmap string pyval) :
  truthy (is_storable p)
  = truthy (dict_get p "is_storable") || eq_str (dict_get p "type") "product".
Proof.
  unfold is_storable, py_or.
  by destruct (truthy (dict_get p "is_storable")) eqn:H; [rewrite H|].
Qed.

(** A run that resolved a location and did not raise went through the
    loop. *)
Lemma resolved_run_completes (products : list (gmap string pyval)) (config : config_arg)
    (s s1 : state DB) (c loc : recordset) :
  products ≠ [] →
  resolve_location orm config s = (Val (c, loc), s1) →
  (∀ e, out_completion (process_products orm products config s).1 ≠ Raising e) →
  ∃ qty, (process_products orm products config s).1
         = Outcome (with_available_qty qty <$> products) Completed.
Proof.
  intros Hne Hres Hreturns.
  pose proof (process_products_cases products config s) as Hcases.
  pose proof (prepare_after_resolve products config s s1 c loc Hne Hres) as Hnr.
  destruct (prepare orm products config s).1 as [qty| |e]; [by exists qty|done|].
  exfalso. apply (Hreturns e). by rewrite Hcases.
Qed.

End Resolution.

(** ** The method against its description *)

Section Claims.
Context {DB : Type} (orm : ORM DB).

(** C2. The location the aggregation uses is the one the configuration
    gives: the try block binds [location] exactly when the configuration
    exists, has a picking type, and the location of the specification
    (the source location of the picking type when set, otherwise the stock
    location of the warehouse when the configuration has one) exists, and
    then to that location; and whenever [read_group] is called, such a
    location was resolved and its id is the one in the query. *)
Theorem location_resolved_from_config
    (products : list (gmap string pyval)) (config : config_arg) (s : state DB) :
  (∀ c loc,
     (resolve_location orm config s).1 = Val (c, loc)
     ↔ config_is orm (st_db s) config c
       ∧ (∃ found, orm_exists orm (st_db s) c = Ok found ∧ rs_truthy found = true)
       ∧ (∃ pt, orm_get orm (st_db s) c "picking_type_id" = Ok pt ∧ rs_truthy pt = true)
       ∧ spec_location orm (st_db s) c = Ok (Some loc))
  ∧ (∀ evs model dom fields groupby,
       st_log (process_products orm products config s).2 = (st_log s ++ evs)%list →
       EvReadGroup model dom fields groupby ∈ evs →
       ∃ c loc ids lid cid,
         (resolve_location orm config s).1 = Val (c, loc)
         ∧ spec_location orm (st_db s) c = Ok (Some loc)
         ∧ rs_truthy loc = true
         ∧ rs_id loc = Ok lid
         ∧ dom = quant_domain ids lid cid).
Proof.
  split; [apply resolve_location_val|].
  intros evs model dom fields groupby Hlog Hin.
  rewrite process_products_state in Hlog.
  destruct (prepare_read_group orm _ _ _ _ _ _ _ _ Hlog Hin)
    as (c & loc & ids & lid & cid & Hres & _ & Hlid & Hdom).
  exists c, loc, ids, lid, cid.
  pose proof Hres as (_ & _ & _ & Hspec)%resolve_location_val.
  split_and!; eauto using spec_location_truthy.
Qed.

(** C3. After a run that resolved a stock location and returned, every
    product that is not storable ([is_storable] falsy and [type] other
    than "product") has [pos_available_qty] set to [None]. *)
Theorem non_storable_gets_none
    (products : list (gmap string pyval)) (config : config_arg) (s s1 : state DB)
    (c loc : recordset) (i : nat) (p : gmap string pyval) :
  resolve_location orm config s = (Val (c, loc), s1) →
  (∀ e, out_completion (process_products orm products config s).1 ≠ Raising e) →
  products !! i = Some p →
  truthy (dict_get p "is_storable") = false →
  eq_str (dict_get p "type") "product" = false →
  out_completion (process_products orm products config s).1 = Completed
  ∧ ∃ p', out_products (process_products orm products config s).1 !! i = Some p'
          ∧ p' !! "pos_available_qty" = Some VNone.
Proof.
  intros Hres Hreturns Hp Hflag Htype.
  assert (products ≠ []) as Hne by (intros ->; done).
  destruct (resolved_run_completes orm _ _ _ _ _ _ Hne Hres Hreturns) as [qty ->].
  simpl. split; [done|]. exists (with_available_qty qty p). split.
  - by rewrite list_lookup_fmap, Hp.
  - by rewrite with_available_qty_lookup, is_storable_truthy, Hflag, Htype.
Qed.

(** C4. After a run on a non-empty list that resolved a stock location
    and returned, every dictionary of the list has the key
    [pos_available_qty]. *)
Theorem every_product_has_available_qty
    (products : list (gmap string pyval)) (config : config_arg) (s s1 : state DB)
    (c loc : recordset) :
  products ≠ [] →
  resolve_location orm config s = (Val (c, loc), s1) →
  (∀ e, out_completion (process_products orm products config s).1 ≠ Raising e) →
  out_completion (process_products orm products config s).1 = Completed
  ∧ length (out_products (process_products orm products config s).1) = length products
  ∧ Forall (λ p', is_Some (p' !! "pos_available_qty"))
           (out_products (process_products orm products config s).1).
Proof.
  intros Hne Hres Hreturns.
  destruct (resolved_run_completes orm _ _ _ _ _ _ Hne Hres Hreturns) as [qty ->].
  simpl. split_and!; [done|by rewrite length_fmap|].
  apply Forall_fmap, Forall_forall. intros p _. simpl.
  by rewrite with_available_qty_lookup.
Qed.

(** Whatever keeps a call from completing, be it a [return] or an
    exception that leaves the method (a missing [id], [location.id] or
    [config.company_id.id] on several records, a failing [read_group]),
    the dictionaries are as they were. *)
Lemma stopped_run_leaves_products
    (products : list (gmap string pyval)) (config : config_arg) (s : state DB) :
  out_completion (process_products orm products config s).1 ≠ Completed →
  out_products (process_products orm products config s).1 = products.
Proof.
  intros Hstopped.
  pose proof (process_products_cases orm products config s) as Hcases.
  destruct (prepare orm products config s).1 as [qty| |e];
    rewrite Hcases in *; done.
Qed.

(** C5. Whenever the method cannot proceed (no products, a falsy or
    missing configuration, no picking type, no location, or an exception
    while the [try] block reads the configuration or the location), it
    returns without raising and the dictionaries are exactly as [super()]
    left them. *)
Theorem cannot_proceed_leaves_products
    (super_process : list (gmap string pyval) → config_arg → state DB →
                     list (gmap string pyval) * option exn * state DB)
    (products products1 : list (gmap string pyval)) (config : config_arg)
    (s s1 : state DB) :
  super_process products config s = (products1, None, s1) →
  cannot_proceed orm (st_db s1) products1 config →
  (_process_pos_ui_product_product orm super_process products config s).1
  = Outcome products1 ReturnedEarly.
Proof.
  intros Hsuper Hcp. unfold _process_pos_ui_product_product. rewrite Hsuper.
  pose proof (process_products_cases orm products1 config s1) as Hcases.
  by rewrite (cannot_proceed_returns orm _ _ _ Hcp) in Hcases.
Qed.

(** C6. For every run, the dictionaries the method leaves are those
    [super()] left, in the same number and order, each equal to its
    original on every key other than [pos_available_qty]. *)
Theorem only_available_qty_changes
    (super_process : list (gmap string pyval) → config_arg → state DB →
                     list (gmap string pyval) * option exn * state DB)
    (products : list (gmap string pyval)) (config : config_arg) (s : state DB) :
  Forall2 same_but_qty
    (super_process products config s).1.1
    (out_products (_process_pos_ui_product_product orm super_process products config s).1).
Proof.
  unfold _process_pos_ui_product_product.
  destruct (super_process products config s) as [[products1 [e|]] s1]; simpl.
  - apply same_but_qty_all_refl.
  - unfold process_products.
    destruct (prepare orm products1 config s1) as [[qty| |e] s']; simpl;
      [|apply same_but_qty_all_refl..].
    pose proof (assign_available_qty_frame qty products1) as Hframe.
    by destruct (assign_available_qty qty products1).
Qed.

(** C7. A run that completes read the configuration, called [read_group]
    exactly once, as its last ORM call, on [stock.quant] with the listed
    product ids, the resolved location and the company of the
    configuration, grouped by product and summing the quantity, and made
    one assignment per product. *)
Theorem completed_run_queries_once
    (products : list (gmap string pyval)) (config : config_arg) (s : state DB) :
  out_completion (process_products orm products config s).1 = Completed →
  ∃ c loc comp reads ids lid cid quants,
    (resolve_location orm config s).1 = Val (c, loc)
    ∧ product_ids products = Ok ids
    ∧ rs_id loc = Ok lid
    ∧ orm_get orm (st_db s) c "company_id" = Ok comp
    ∧ rs_id comp = Ok cid
    ∧ st_log (process_products orm products config s).2
      = (st_log s ++ reads
         ++ [EvReadGroup "stock.quant" (quant_domain ids lid cid)
               ["product_id"; "quantity:sum"] ["product_id"]])%list
    ∧ Forall (λ ev, is_read_group ev = false) reads
    ∧ EvExists c ∈ reads
    ∧ EvGet c "picking_type_id" ∈ reads
    ∧ EvGet c "company_id" ∈ reads
    ∧ orm_read_group orm (st_db s) "stock.quant" (quant_domain ids lid cid)
        ["product_id"; "quantity:sum"] ["product_id"] = Ok quants
    ∧ out_products (process_products orm products config s).1
      = with_available_qty (qty_by_product quants) <$> products.
Proof.
  intros Hdone.
  pose proof (process_products_cases orm products config s) as Hcases.
  rewrite process_products_state.
  destruct (prepare orm products config s) as [[qty| |e] s'] eqn:Hprep; simpl in *;
    [|by rewrite Hcases in Hdone..].
  apply prepare_val in Hprep
    as (_ & c & loc & s1 & ids & lid & comp & cid & quants
        & Hres & Hids & Hlid & Hcomp & Hcid & Hquants & -> & ->).
  destruct (resolve_location_log orm _ _ _ _ _ Hres)
    as (_ & reads & Hlog & Hno & Hex & Hpt).
  exists c, loc, comp, (reads ++ [EvGet c "company_id"])%list, ids, lid, cid, quants.
  rewrite Hcases. simpl. rewrite Hres, Hlog, <- !app_assoc.
  split_and!; try done.
  - apply Forall_app. split; [done|]. by repeat constructor.
  - apply elem_of_app. by left.
  - apply elem_of_app. by left.
  - apply elem_of_app. right. by apply list_elem_of_singleton.
Qed.

End Claims.

(** C8. Neither method writes to the database.  [_load_pos_data_fields]
    ends in the state [super()] left, without a single ORM call of its
    own; [_process_pos_ui_product_product] ends with the database
    [super()] left and has only added queries (browse, exists, field
    reads, read_group) to the log. *)
Theorem module_only_reads_database :
  (∀ (DB Cfg : Type)
     (super_fields : Cfg → state DB → result (list string) * state DB)
     (config_id : Cfg) (s : state DB),
     (_load_pos_data_fields super_fields config_id s).2 = (super_fields config_id s).2)
  ∧ (∀ (DB : Type) (orm : ORM DB)
       (super_process : list (gmap string pyval) → config_arg → state DB →
                        list (gmap string pyval) * option exn * state DB)
       (products : list (gmap string pyval)) (config : config_arg) (s : state DB),
       st_db (_process_pos_ui_product_product orm super_process products config s).2
       = st_db (super_process products config s).2
       ∧ ∃ evs,
           st_log (_process_pos_ui_product_product orm super_process products config s).2
           = (st_log (super_process products config s).2 ++ evs)%list).
Proof.
  split.
  - intros DB Cfg super_fields config_id s. unfold _load_pos_data_fields.
    by destruct (super_fields config_id s) as [[fields|e] s1].
  - intros DB orm super_process products config s.
    unfold _process_pos_ui_product_product.
    destruct (super_process products config s) as [[products1 [e|]] s1]; simpl.
    + split; [done|]. exists []. by rewrite app_nil_r.
    + rewrite process_products_state.
      destruct (prepare_queries_only orm products1 config s1) as [Hdb (evs & Hlog & _)].
      eauto.
Qed.

(** ** The grouped aggregate of the in-memory database *)

Module MemoryFacts.
Import Memory.

Lemma distinct_acc (acc ids : list Z) :
  let r := foldl (λ acc i, if bool_decide (i ∈ acc) then acc else (acc ++ [i])%list) acc ids in
  (∀ x, x ∈ r ↔ x ∈ acc ∨ x ∈ ids) ∧ (NoDup acc → NoDup r).
Proof.
  revert acc. induction ids as [|i ids IH]; intros acc; simpl.
  - split; [|done]. intros x. rewrite elem_of_nil. tauto.
  - case_bool_decide as Hin.
    + destruct (IH acc) as [Hel Hnd]. split; [|done].
      intros x. rewrite Hel, elem_of_cons. split; [tauto|].
      intros [?|[->|?]]; auto.
    + destruct (IH (acc ++ [i])%list) as [Hel Hnd]. split.
      * intros x. rewrite Hel, elem_of_app, list_elem_of_singleton, elem_of_cons. tauto.
      * intros Hacc. apply Hnd. apply NoDup_app. split_and!; [done| |apply NoDup_singleton].
        intros x Hx ->%list_elem_of_singleton. done.
Qed.

Lemma elem_of_distinct (ids : list Z) (x : Z) : x ∈ distinct ids ↔ x ∈ ids.
Proof.
  unfold distinct. destruct (distinct_acc [] ids) as [Hel _].
  rewrite Hel, elem_of_nil. tauto.
Qed.

Lemma NoDup_distinct (ids : list Z) : NoDup (distinct ids).
Proof.
  unfold distinct. destruct (distinct_acc [] ids) as [_ Hnd].
  apply Hnd, NoDup_nil_2.
Qed.

Lemma distinct_short (ids : list Z) : (length ids ≤ 1)%nat → distinct ids = ids.
Proof. destruct ids as [|i [|j ids]]; simpl; [done|done|lia]. Qed.

(** The dictionary built from one row per key holds, for a key, the row
    of that key. *)
Lemma qty_by_product_rows (row : Z → group) (keys : list Z) (pid : Z) :
  (∀ k, (g_product_id (row k)).1 = k) →
  qty_by_product (row <$> keys) !! pid
  = if bool_decide (pid ∈ keys) then Some (g_quantity (row pid)) else None.
Proof.
  intros Hrow. unfold qty_by_product.
  assert (∀ m : gmap Z Q,
            foldl (λ m q, <[(g_product_id q).1 := g_quantity q]> m) m (row <$> keys) !! pid
            = if bool_decide (pid ∈ keys) then Some (g_quantity (row pid)) else m !! pid)
    as Hgen.
  { induction keys as [|k keys IH]; intros m; simpl; [done|].
    rewrite IH, Hrow. case_bool_decide as Hin.
    - rewrite bool_decide_true by (by right). done.
    - destruct (decide (pid = k)) as [->|Hne].
      + rewrite bool_decide_true by (by left). by rewrite lookup_insert_eq.
      + rewrite bool_decide_false by (rewrite elem_of_cons; tauto).
        by rewrite lookup_insert_ne. }
  by rewrite Hgen.
Qed.

Lemma group_by_product_lookup (db : database) (qs : list quant) (pid : Z) :
  qty_by_product (group_by_product db qs) !! pid
  = if bool_decide (pid ∈ q_product_id <$> qs)
    then Some (sum_quantity (filter (λ q, q_product_id q = pid) qs))
    else None.
Proof.
  unfold group_by_product.
  rewrite (qty_by_product_rows
             (λ pid, Group (pid, default "" (product_names db !! pid))
                           (sum_quantity (filter (λ q, q_product_id q = pid) qs))))
    by done.
  simpl. by rewrite (bool_decide_ext _ _ (elem_of_distinct (q_product_id <$> qs) pid)).
Qed.

Lemma int_list_ids (products : list (gmap string pyval)) :
  Forall has_int_id products →
  ∃ zs, product_ids products = Ok (VInt <$> zs) ∧ int_list (VInt <$> zs) = Some zs
        ∧ ∀ i p z, products !! i = Some p → p !! "id" = Some (VInt z) → z ∈ zs.
Proof.
  induction 1 as [|p rest [z Hz] _ (zs & Hids & Hints & Hmem)].
  - exists []. split_and!; [done|done|]. intros i p z Hp. by rewrite lookup_nil in Hp.
  - exists (z :: zs). split_and!.
    + simpl. unfold getitem. by rewrite Hz, Hids.
    + rewrite fmap_cons. cbn [int_list]. by rewrite Hints.
    +
 intros [|i] p' z' Hp' Hz'; simplify_eq/=.
      * by left.
      * right. eauto.
Qed.

(** *** Reading columns of a single record *)

Lemma many2one_short {R : Type} (model comodel : string) (tbl : gmap Z R)
    (col : R → option Z) (ids : list Z) (rs : recordset) :
  many2one model comodel tbl col ids = Ok rs →
  (length ids ≤ 1)%nat →
  (length (rs_ids rs) ≤ 1)%nat
  ∧ ∀ z, ids = [z] →
         ∃ r, tbl !! z = Some r ∧ rs = Recordset comodel (option_list (col r)).
Proof.
  unfold many2one. intros H Hlen.
  destruct ids as [|z [|z' ids]]; simpl in *; [| |lia].
  - simplify_eq/=. split; [lia|done].
  - destruct (tbl !! z) as [r|] eqn:Hr; [|done]. simplify_eq/=.
    rewrite app_nil_r.
    assert (distinct (from_option (λ j, [j]) [] (col r)) = option_list (col r)) as ->.
    { destruct (col r); simpl; by rewrite distinct_short by (simpl; lia). }
    split; [destruct (col r); simpl; lia|].
    intros ? [= <-]. by exists r.
Qed.

Lemma get_short (db : database) (rs rs' : recordset) (field : string) :
  get db rs field = Ok rs' →
  (length (rs_ids rs) ≤ 1)%nat →
  (length (rs_ids rs') ≤ 1)%nat.
Proof.
  unfold get. intros H Hlen.
  repeat case_match; try done.
  all: by eapply many2one_short.
Qed.

Lemma short_truthy_singleton (rs : recordset) :
  (length (rs_ids rs) ≤ 1)%nat → rs_truthy rs = true → ∃ l, rs_ids rs = [l].
Proof.
  unfold rs_truthy. destruct (rs_ids rs) as [|l [|l' ids]]; simpl; [done| |lia].
  intros _ _. by exists l.
Qed.

(** A single configuration has at most one location. *)
Lemma spec_location_singleton (db : database) (c loc : recordset) :
  (length (rs_ids c) ≤ 1)%nat →
  spec_location orm db c = Ok (Some loc) →
  ∃ l, rs_ids loc = [l].
Proof.
  unfold spec_location. simpl. intros Hlen H.
  repeat (case_match; simplify_eq/=).
  all: apply short_truthy_singleton; [|done].
  all: repeat match goal with
              | E : get _ _ _ = Ok ?r |- (length (rs_ids ?r) ≤ 1)%nat =>
                  apply (get_short _ _ _ _ E)
              end; done.
Qed.

(** The company of a single configuration that has been read. *)
Lemma company_of_config (db : database) (c pt : recordset) (z : Z) :
  rs_ids c = [z] →
  get db c "picking_type_id" = Ok pt →
  ∃ cfg, pos_configs db !! z = Some cfg
         ∧ get db c "company_id"
           = Ok (Recordset "res.company" (option_list (cfg_company_id cfg))).
Proof.
  unfold get. intros Hz Hpt.
  destruct (String.eqb (rs_model c) "pos.config") eqn:Hmodel.
  - simpl in *. rewrite Hz in *.
    unfold many2one in *. simpl in *.
    destruct (pos_configs db !! z) as [cfg|]; [|done].
    exists cfg. split; [done|]. rewrite app_nil_r.
    by destruct (cfg_company_id cfg).
  - simpl in Hpt. repeat case_match; done.
Qed.

(** *** The query *)

Lemma rs_id_company (comodel : string) (company : option Z) :
  rs_id (Recordset comodel (option_list company)) = Ok (company_value company).
Proof. by destruct company. Qed.

Lemma read_group_quant_domain (db : database) (zs : list Z) (root : Z)
    (company : option Z) :
  int_list (VInt <$> zs) = Some zs →
  read_group db "stock.quant"
    (quant_domain (VInt <$> zs) (VInt root) (company_value company))
    ["product_id"; "quantity:sum"] ["product_id"]
  = Ok (group_by_product db (filter (matches db zs root company) (quants db))).
Proof.
  intros Hints. unfold read_group.
  rewrite !bool_decide_true by done. simpl. rewrite Hints. simpl.
  destruct company as [cid|]; simpl; do 2 f_equal.
  all: apply list_filter_iff; intros q; unfold matches.
  all: rewrite !andb_true_iff, !bool_decide_eq_true; tauto.
Qed.

Lemma on_hand_of_matches (db : database) (zs : list Z) (root pid : Z)
    (company : option Z) :
  pid ∈ zs →
  filter (λ q, q_product_id q = pid) (filter (matches db zs root company) (quants db))
  = on_hand db pid root company.
Proof.
  intros Hin. unfold on_hand. rewrite list_filter_filter.
  apply list_filter_iff. intros q. unfold matches. split.
  - intros (? & ? & ? & ?). done.
  - intros (<- & ? & ?). done.
Qed.

(** What the method finds in its dictionary for a listed product. *)
Lemma qty_on_hand (db : database) (zs : list Z) (root pid : Z) (company : option Z) :
  pid ∈ zs →
  qty_get (qty_by_product
             (group_by_product db (filter (matches db zs root company) (quants db))))
          (VInt pid)
  = VFloat (sum_quantity (on_hand db pid root company)).
Proof.
  intros Hin. unfold qty_get. simpl.
  rewrite group_by_product_lookup, (on_hand_of_matches db zs root pid company Hin).
  case_bool_decide as Hgroup; [done|]. simpl. f_equal.
  rewrite <- (on_hand_of_matches db zs root pid company Hin).
  destruct (filter (λ q, q_product_id q = pid) _) as [|q qs] eqn:Hf; [done|].
  exfalso. apply Hgroup.
  assert (q ∈ q :: qs) as Hq by by left.
  rewrite <- Hf in Hq. apply list_elem_of_filter in Hq as [<- Hq].
  apply list_elem_of_fmap. by exists q.
Qed.

End MemoryFacts.

(** C1. On the in-memory database: for a non-empty list of product
    dictionaries and a single configuration from which a stock location is
    resolved, the method completes, and every storable product
    ([is_storable] truthy, or [type] equal to "product") has
    [pos_available_qty] equal to the sum of the quantity over the quants
    of that product, at a location in the hierarchy of the resolved
    location, of the company of the configuration; it is 0.0 when there is
    no such quant. *)
Theorem storable_gets_quantity_on_hand
    (db : Memory.database) (log : list event)
    (products : list (gmap string pyval)) (config : config_arg)
    (c loc : recordset) (s1 : state Memory.database) (z : Z) :
  products ≠ [] →
  resolve_location Memory.orm config (State db log) = (Val (c, loc), s1) →
  rs_ids c = [z] →
  Forall has_int_id products →
  ∃ cfg l,
    Memory.pos_configs db !! z = Some cfg
    ∧ rs_ids loc = [l]
    ∧ out_completion (process_products Memory.orm products config (State db log)).1
      = Completed
    ∧ ∀ i p pid,
        products !! i = Some p →
        truthy (dict_get p "is_storable") = true
        ∨ eq_str (dict_get p "type") "product" = true →
        p !! "id" = Some (VInt pid) →
        ∃ p',
          out_products (process_products Memory.orm products config (State db log)).1 !! i
          = Some p'
          ∧ p' !! "pos_available_qty"
            = Some (VFloat (Memory.sum_quantity
                              (on_hand db pid l (Memory.cfg_company_id cfg))))
          ∧ (on_hand db pid l (Memory.cfg_company_id cfg) = [] →
             p' !! "pos_available_qty" = Some (VFloat 0)).
Proof.
  intros Hne Hres Hz Hids.
  assert ((resolve_location Memory.orm config (State db log)).1 = Val (c, loc)) as Hval
    by by rewrite Hres.
  apply resolve_location_val in Hval as (_ & _ & (pt & Hpt & _) & Hspec).
  simpl in Hpt, Hspec.
  destruct (MemoryFacts.spec_location_singleton db c loc) as [l Hl];
    [rewrite Hz; simpl; lia|done|].
  destruct (MemoryFacts.company_of_config db c pt z Hz Hpt) as (cfg & Hcfg & Hcomp).
  destruct (MemoryFacts.int_list_ids products Hids) as (zs & Hpids & Hints & Hmem).
  assert (rs_id loc = Ok (VInt l)) as Hlid by (unfold rs_id; by rewrite Hl).
  pose proof
    (prepare_run Memory.orm products config (State db log) s1 c loc
       (Recordset "res.company" (option_list (Memory.cfg_company_id cfg)))
       (VInt <$> zs) (VInt l) (company_value (Memory.cfg_company_id cfg))
       (Memory.group_by_product db
          (filter (matches db zs l (Memory.cfg_company_id cfg)) (Memory.quants db)))
       Hne Hres Hpids Hlid Hcomp (MemoryFacts.rs_id_company _ _)
       (MemoryFacts.read_group_quant_domain db zs l _ Hints)) as Hprep.
  pose proof (process_products_cases Memory.orm products config (State db log))
    as Hcases.
  rewrite Hprep in Hcases. rewrite Hcases. simpl.
  exists cfg, l. split_and!; [done..|].
  intros i p pid Hp Hstorable Hpid.
  exists (with_available_qty
            (qty_by_product
               (Memory.group_by_product db
                  (filter (matches db zs l (Memory.cfg_company_id cfg)) (Memory.quants db))))
            p).
  assert (with_available_qty
            (qty_by_product
               (Memory.group_by_product db
                  (filter (matches db zs l (Memory.cfg_company_id cfg)) (Memory.quants db))))
            p !! "pos_available_qty"
          = Some (VFloat (Memory.sum_quantity
                            (on_hand db pid l (Memory.cfg_company_id cfg))))) as Hqty.
  { rewrite with_available_qty_lookup, is_storable_truthy.
    replace (truthy (dict_get p "is_storable") || eq_str (dict_get p "type") "product")
      with true by (destruct Hstorable as [-> | ->]; by rewrite ?orb_true_r).
    unfold dict_get at 1. rewrite Hpid. simpl.
    by rewrite (MemoryFacts.qty_on_hand db zs l pid _ (Hmem i p pid Hp Hpid)). }
  split_and!.
  - by rewrite list_lookup_fmap, Hp.
  - done.
  - intros Hnone. by rewrite Hqty, Hnone.
Qed.

(** ** The properties at work in the shop *)

Lemma shop_resolves_location100 :
  resolve_location Memory.orm (CfgInt 1) (State Shop.db [])
  = (Val (Shop.config1, Shop.location100), State Shop.db Shop.resolved_log).
Proof. vm_compute. reflexivity. Defined.

Lemma shop_products_have_ids : Forall has_int_id Shop.products.
Proof. repeat constructor; eexists; vm_compute; reflexivity. Defined.

Lemma shop_run_returns (e : exn) :
  out_completion (process_products Memory.orm Shop.products (CfgInt 1) (State Shop.db [])).1
  ≠ Raising e.
Proof. vm_compute. discriminate. Defined.

Lemma storable_gets_quantity_on_hand_witness :
  ∃ p',
    out_products
      (process_products Memory.orm Shop.products (CfgInt 1) (State Shop.db [])).1 !! 0%nat
    = Some p'
    ∧ p' !! "pos_available_qty"
      = Some (VFloat (Memory.sum_quantity (on_hand Shop.db 7 100 (Some 1%Z)))).
Proof.
  destruct (storable_gets_quantity_on_hand Shop.db [] Shop.products (CfgInt 1)
              Shop.config1 Shop.location100 (State Shop.db Shop.resolved_log) 1)
    as (cfg & l & Hcfg & Hl & _ & Hall).
  - discriminate.
  - exact shop_resolves_location100.
  - reflexivity.
  - exact shop_products_have_ids.
  - vm_compute in Hcfg. injection Hcfg as <-. injection Hl as <-.
    destruct (Hall 0%nat Shop.desk 7%Z) as (p' & Hp' & Hqty & _).
    + reflexivity.
    + right. reflexivity.
    + vm_compute. reflexivity.
    + exists p'. split; [exact Hp'|exact Hqty].
Defined.

Lemma non_storable_gets_none_witness :
  out_completion (process_products Memory.orm Shop.products (CfgInt 1) (State Shop.db [])).1
  = Completed
  ∧ ∃ p',
      out_products
        (process_products Memory.orm Shop.products (CfgInt 1) (State Shop.db [])).1 !! 2%nat
      = Some p'
      ∧ p' !! "pos_available_qty" = Some VNone.
Proof.
  apply (non_storable_gets_none Memory.orm Shop.products (CfgInt 1) (State Shop.db [])
           (State Shop.db Shop.resolved_log) Shop.config1 Shop.location100
           2%nat Shop.delivery).
  - exact shop_resolves_location100.
  - exact shop_run_returns.
  - reflexivity.
  - vm_compute. reflexivity.
  - vm_compute. reflexivity.
Defined.

Lemma every_product_has_available_qty_witness :
  out_completion (process_products Memory.orm Shop.products (CfgInt 1) (State Shop.db [])).1
  = Completed
  ∧ length (out_products
              (process_products Memory.orm Shop.products (CfgInt 1) (State Shop.db [])).1)
    = length Shop.products
  ∧ Forall (λ p', is_Some (p' !! "pos_available_qty"))
           (out_products
              (process_products Memory.orm Shop.products (CfgInt 1) (State Shop.db [])).1).
Proof.
  apply (every_product_has_available_qty Memory.orm Shop.products (CfgInt 1)
           (State Shop.db []) (State Shop.db Shop.resolved_log)
           Shop.config1 Shop.location100).
  - discriminate.
  - exact shop_resolves_location100.
  - exact shop_run_returns.
Defined.

Lemma cannot_proceed_leaves_products_witness :
  (_process_pos_ui_product_product Memory.orm Shop.super_process
     Shop.products (CfgInt 2) (State Shop.db [])).1
  = Outcome Shop.products ReturnedEarly.
Proof.
  apply (cannot_proceed_leaves_products Memory.orm Shop.super_process
           Shop.products Shop.products (CfgInt 2) (State Shop.db []) (State Shop.db [])).
  - reflexivity.
  - apply (no_picking_type Memory.orm Shop.db Shop.products (CfgInt 2)
             (Recordset "pos.config" [2%Z]) (Recordset "stock.picking.type" [])).
    + apply config_is_int. vm_compute. reflexivity.
    + vm_compute. reflexivity.
    + reflexivity.
Defined.

Lemma completed_run_queries_once_witness :
  ∃ reads dom,
    st_log (process_products Memory.orm Shop.products (CfgInt 1) (State Shop.db [])).2
    = (reads ++ [EvReadGroup "stock.quant" dom
                   ["product_id"; "quantity:sum"] ["product_id"]])%list
    ∧ Forall (λ ev, is_read_group ev = false) reads.
Proof.
  destruct (completed_run_queries_once Memory.orm Shop.products (CfgInt 1)
              (State Shop.db []))
    as (c & loc & comp & reads & ids & lid & cid & quants
        & _ & _ & _ & _ & _ & Hlog & Hreads & _).
  - vm_compute. reflexivity.
  - exists reads, (quant_domain ids lid cid). split; [exact Hlog|exact Hreads].
Defined.

Lemma load_fields_appends_absent_witness :
  ∃ res,
    (_load_pos_data_fields Shop.super_fields 1%Z (State Shop.db [])).1 = Ok res
    ∧ res = ["id"; "display_name"; "type"; "is_storable"].
Proof.
  destruct (load_fields_appends_absent Shop.super_fields 1%Z
              (State Shop.db []) (State Shop.db []) ["id"; "display_name"; "type"])
    as (res & Hres & Heq & _).
  - reflexivity.
  - exists res. split; [exact Hres|]. rewrite Heq. vm_compute. reflexivity.
Defined.

(** ** The shop, configuration by configuration *)

(** Desks: 3 at location 100 and 5/2 at 103, below it; the 9 of another
    company do not count.  Lamps are at 101 only. *)
Example shop_config1 :
  Shop.run (CfgInt 1)
  = (Completed, [Some (VFloat (11 # 2)); Some (VFloat 0); Some VNone]).
Proof. vm_compute. reflexivity. Qed.

(** No picking type: the warehouse is not consulted. *)
Example shop_config2 : Shop.run (CfgInt 2) = (ReturnedEarly, [None; None; None]).
Proof. vm_compute. reflexivity. Qed.

(** No source location on the picking type: the warehouse stock location. *)
Example shop_config3 :
  Shop.run (CfgInt 3)
  = (Completed, [Some (VFloat 0); Some (VFloat 1); Some VNone]).
Proof. vm_compute. reflexivity. Qed.

(** A picking type that is gone: the [MissingError] is swallowed. *)
Example shop_config4 : Shop.run (CfgInt 4) = (ReturnedEarly, [None; None; None]).
Proof. vm_compute. reflexivity. Qed.

Example shop_config_false : Shop.run (CfgBool false) = (ReturnedEarly, [None; None; None]).
Proof. vm_compute. reflexivity. Qed.

Example shop_config_missing : Shop.run (CfgInt 5) = (ReturnedEarly, [None; None; None]).
Proof. vm_compute. reflexivity. Qed.

(** Two configurations at once resolve two picking types but one source
    location. *)
Example shop_config_recordset :
  Shop.run (CfgRecords (Recordset "pos.config" [1; 3]%Z))
  = (Completed, [Some (VFloat (11 # 2)); Some (VFloat 0); Some VNone]).
Proof. vm_compute. reflexivity. Qed.

(** Two configurations with two source locations: [location.id] raises
    after the [try] block, and the exception leaves the method. *)
Example shop_two_locations :
  Shop.run (CfgRecords (Recordset "pos.config" [1; 6]%Z))
  = (Raising (ValueError "Expected singleton"), [None; None; None]).
Proof. vm_compute. reflexivity. Qed.

(** A dictionary without [id] stops the method before the query. *)
Example shop_missing_id :
  (process_products Memory.orm ({[ "type" := VStr "product" ]} :: Shop.products)
     (CfgInt 1) (State Shop.db [])).1
  = Outcome ({[ "type" := VStr "product" ]} :: Shop.products) (Raising (KeyError "id")).
Proof. vm_compute. reflexivity. Qed.

(** * Further properties of the two methods *)

Section Further.
Context {DB : Type} (orm : ORM DB).

Lemma resolve_location_flow_db (config : config_arg) (s s' : state DB) :
  st_db s = st_db s' →
  (resolve_location orm config s).1 = (resolve_location orm config s').1.
Proof.
  intros Hdb.
  destruct (resolve_location orm config s).1 as [[c loc]| |e] eqn:H.
  - symmetry. apply resolve_location_val. rewrite <- Hdb.
    by apply resolve_location_val.
  - destruct (resolve_location orm config s').1 as [[c loc]| |e] eqn:H'; [|done|].
    + apply resolve_location_val in H'. rewrite <- Hdb in H'.
      apply resolve_location_val in H'. congruence.
    + by apply resolve_location_no_raise in H'.
  - by apply resolve_location_no_raise in H.
Qed.

Lemma aggregate_flow_ext (products products' : list (gmap string pyval))
    (c loc : recordset) (s s' : state DB) :
  st_db s = st_db s' →
  product_ids products = product_ids products' →
  (aggregate orm products c loc s).1 = (aggregate orm products' c loc s').1.
Proof.
  intros Hdb Hids. unfold_body. rewrite <- Hdb, <- Hids.
  repeat (case_match; simplify_eq/=); done.
Qed.

(** How the part before the loop ends depends on the database and on the
    ids of the products, not on the calls made before nor on the other
    keys of the dictionaries. *)
Lemma prepare_flow_ext (products products' : list (gmap string pyval))
    (config : config_arg) (s s' : state DB) :
  st_db s = st_db s' →
  product_ids products = product_ids products' →
  (products = [] ↔ products' = []) →
  (prepare orm products config s).1 = (prepare orm products' config s').1.
Proof.
  intros Hdb Hids Hnil. unfold prepare.
  rewrite (bool_decide_ext _ _ Hnil). case_bool_decide; [done|].
  rewrite !run_bind.
  pose proof (resolve_location_flow_db config s s' Hdb) as Hflow.
  pose proof (resolve_location_queries_only orm config s) as [Hdb1 _].
  pose proof (resolve_location_queries_only orm config s') as [Hdb1' _].
  destruct (resolve_location orm config s) as [[[c loc]| |e] s1],
           (resolve_location orm config s') as [[[c' loc']| |e'] s1'];
    simplify_eq/=; try done.
  apply aggregate_flow_ext; congruence.
Qed.

Lemma process_products_of_flow (products : list (gmap string pyval))
    (config config' : config_arg) (s s' : state DB) :
  (prepare orm products config s).1 = (prepare orm products config' s').1 →
  (process_products orm products config s).1
  = (process_products orm products config' s').1.
Proof.
  intros Hflow.
  pose proof (process_products_cases orm products config s) as H1.
  pose proof (process_products_cases orm products config' s') as H2.
  rewrite <- Hflow in H2.
  destruct (prepare orm products config s).1 as [qty| |e]; congruence.
Qed.

Lemma product_ids_same_but_qty (products products' : list (gmap string pyval)) :
  Forall2 same_but_qty products products' →
  product_ids products = product_ids products'.
Proof.
  induction 1 as [|p p' rest rest' Hp _ IH]; [done|].
  simpl. unfold getitem. rewrite (Hp "id") by done. by rewrite IH.
Qed.

Lemma same_but_qty_nil (products products' : list (gmap string pyval)) :
  Forall2 same_but_qty products products' → products = [] ↔ products' = [].
Proof. destruct 1; split; done. Qed.

Lemma with_available_qty_same_but_qty (qty : gmap Z Q) (p p' : gmap string pyval) :
  same_but_qty p p' → with_available_qty qty p' = with_available_qty qty p.
Proof.
  intros Hp. unfold with_available_qty, is_storable, dict_get.
  rewrite !(Hp "is_storable"), !(Hp "type"), !(Hp "id") by done.
  apply map_eq. intros k. destruct (decide (k = "pos_available_qty")) as [->|Hk].
  - by rewrite !lookup_insert_eq.
  - rewrite !lookup_insert_ne by done. by apply Hp.
Qed.

Lemma with_available_qty_all_same_but_qty (qty : gmap Z Q)
    (products products' : list (gmap string pyval)) :
  Forall2 same_but_qty products products' →
  with_available_qty qty <$> products' = with_available_qty qty <$> products.
Proof.
  induction 1 as [|p p' rest rest' Hp _ IH]; [done|].
  rewrite !fmap_cons, IH. f_equal. by apply with_available_qty_same_but_qty.
Qed.

(** X1. Exception safety of the whole method: when a call does not run to
    completion, whether it returns early or an exception leaves it (a
    dictionary without [id], several locations or companies, a failing
    company read or [read_group]), the dictionaries are exactly those
    [super()] left. *)
Theorem stopped_call_leaves_products
    (super_process : list (gmap string pyval) → config_arg → state DB →
                     list (gmap string pyval) * option exn * state DB)
    (products : list (gmap string pyval)) (config : config_arg) (s : state DB) :
  out_completion (_process_pos_ui_product_product orm super_process products config s).1
  ≠ Completed →
  out_products (_process_pos_ui_product_product orm super_process products config s).1
  = (super_process products config s).1.1.
Proof.
  unfold _process_pos_ui_product_product.
  destruct (super_process products config s) as [[products1 [e|]] s1]; simpl; [done|].
  apply stopped_run_leaves_products.
Qed.

(** X2. Running the method again on its own result, against the same
    database, changes nothing: the second call ends as the first did and
    leaves the same dictionaries. *)
Theorem second_run_changes_nothing
    (products : list (gmap string pyval)) (config : config_arg) (s : state DB) :
  (process_products orm
     (out_products (process_products orm products config s).1) config
     (process_products orm products config s).2).1
  = (process_products orm products config s).1.
Proof.
  pose proof (process_products_cases orm products config s) as Hfirst.
  pose proof (prepare_queries_only orm products config s) as [Hdb _].
  rewrite <- process_products_state in Hdb.
  set (r := process_products orm products config s) in *.
  pose proof (process_products_cases orm (out_products r.1) config r.2) as Hsecond.
  assert (Forall2 same_but_qty (out_products r.1) products) as Hsame.
  { destruct (prepare orm products config s).1 as [qty| |e]; rewrite Hfirst; simpl;
      [|apply same_but_qty_all_refl..].
    apply Forall2_fmap_l, Forall_Forall2_diag, Forall_forall.
    intros p _ k Hk. symmetry. unfold with_available_qty. by rewrite lookup_insert_ne. }
  rewrite (prepare_flow_ext (out_products r.1) products config r.2 s) in Hsecond.
  - destruct (prepare orm products config s).1 as [qty| |e];
      rewrite Hsecond, Hfirst; simpl; [|done..].
    by rewrite <- list_fmap_compose,
      (list_fmap_ext _ (with_available_qty qty) products)
      by (intros; apply with_available_qty_again).
  - done.
  - by apply product_ids_same_but_qty.
  - by apply (same_but_qty_nil (out_products r.1) products).
Qed.

(** X3. A value already stored under [pos_available_qty] is never read:
    two lists that differ only in that key, processed against the same
    database, end the same way and, when the run completes, leave the
    same dictionaries. *)
Theorem stale_quantity_is_ignored
    (products products' : list (gmap string pyval)) (config : config_arg)
    (s s' : state DB) :
  Forall2 same_but_qty products products' →
  st_db s = st_db s' →
  out_completion (process_products orm products' config s').1
  = out_completion (process_products orm products config s).1
  ∧ (out_completion (process_products orm products config s).1 = Completed →
     out_products (process_products orm products' config s').1
     = out_products (process_products orm products config s).1).
Proof.
  intros Hsame Hdb.
  pose proof (process_products_cases orm products config s) as H1.
  pose proof (process_products_cases orm products' config s') as H2.
  rewrite <- (prepare_flow_ext products products' config s s') in H2.
  - destruct (prepare orm products config s).1 as [qty| |e];
      rewrite H1, H2; simpl; [|done..].
    split; [done|]. intros _. by apply with_available_qty_all_same_but_qty.
  - done.
  - by apply product_ids_same_but_qty.
  - by apply same_but_qty_nil.
Qed.

Lemma resolve_location_flow_config (config config' : config_arg) (s s' : state DB) :
  st_db s = st_db s' →
  (∀ c, config_is orm (st_db s) config c ↔ config_is orm (st_db s) config' c) →
  (resolve_location orm config s).1 = (resolve_location orm config' s').1.
Proof.
  intros Hdb Hcfg.
  assert (∀ c loc, (resolve_location orm config s).1 = Val (c, loc)
                   ↔ (resolve_location orm config' s').1 = Val (c, loc)) as Hval.
  { intros c loc. rewrite !resolve_location_val, <- Hdb, Hcfg. done. }
  destruct (resolve_location orm config s).1 as [[c loc]| |e] eqn:H.
  - symmetry. by apply Hval.
  - destruct (resolve_location orm config' s').1 as [[c loc]| |e] eqn:H'; [|done|].
    + destruct (Hval c loc) as [_ Hback]. by specialize (Hback eq_refl).
    + by apply resolve_location_no_raise in H'.
  - by apply resolve_location_no_raise in H.
Qed.

(** X4. The configuration may be passed as an id or as the recordset
    [browse] gives for that id: both calls end the same way and leave the
    same dictionaries. *)
Theorem id_or_recordset
    (products : list (gmap string pyval)) (z : Z) (c : recordset) (s : state DB) :
  orm_browse orm (st_db s) "pos.config" (VInt z) = Ok c →
  rs_truthy c = true →
  (process_products orm products (CfgInt z) s).1
  = (process_products orm products (CfgRecords c) s).1.
Proof.
  intros Hbrowse Hc. apply process_products_of_flow.
  unfold prepare. case_bool_decide; [done|]. rewrite !run_bind.
  assert ((resolve_location orm (CfgInt z) s).1
          = (resolve_location orm (CfgRecords c) s).1) as Hflow.
  { apply resolve_location_flow_config; [done|]. intros c'. split.
    - inversion 1; subst. assert (c' = c) as -> by congruence. by constructor.
    - inversion 1; subst. by constructor. }
  pose proof (resolve_location_queries_only orm (CfgInt z) s) as [Hdb1 _].
  pose proof (resolve_location_queries_only orm (CfgRecords c) s) as [Hdb2 _].
  destruct (resolve_location orm (CfgInt z) s) as [[[c1 loc1]| |e1] s1],
           (resolve_location orm (CfgRecords c) s) as [[[c2 loc2]| |e2] s2];
    simplify_eq/=; try done.
  apply aggregate_flow_ext; congruence.
Qed.

(** *** How many calls a run makes *)

Lemma calls_at_most_silent {A} (n : nat) (m : M DB A) :
  (∀ s, (m s).2 = s) → calls_at_most n m.
Proof.
  intros Hm s. rewrite Hm. exists []. rewrite app_nil_r. split; [done|simpl; lia].
Qed.

Lemma calls_at_most_call {A} (n : nat) (ev : event) (q : DB → result A) :
  (1 ≤ n)%nat → calls_at_most n (call ev q).
Proof. intros Hn s. exists [ev]. split; [done|simpl; lia]. Qed.

Lemma calls_at_most_bind {A B} (n1 n2 n : nat) (m : M DB A) (k : A → M DB B) :
  calls_at_most n1 m → (∀ a, calls_at_most n2 (k a)) → (n1 + n2 ≤ n)%nat →
  calls_at_most n (m ≫= k).
Proof.
  intros Hm Hk Hn s. rewrite run_bind.
  destruct (Hm s) as (evs & Hlog & Hlen).
  destruct (m s) as [[a| |e] s1]; simpl in *;
    [|exists evs; split; [done|lia]..].
  destruct (Hk a s1) as (evs' & Hlog' & Hlen').
  exists (evs ++ evs')%list. split.
  - by rewrite Hlog', Hlog, app_assoc.
  - rewrite length_app. lia.
Qed.

Lemma calls_at_most_if {A} (n : nat) (b : bool) (m1 m2 : M DB A) :
  calls_at_most n m1 → calls_at_most n m2 → calls_at_most n (if b then m1 else m2).
Proof. by destruct b. Qed.

Lemma calls_at_most_try {A} (n : nat) (m : M DB A) :
  calls_at_most n m → calls_at_most n (try_except_return m).
Proof.
  intros Hm s. unfold try_except_return.
  specialize (Hm s). by destruct (m s) as [[a| |e] s'].
Qed.

Lemma location_expr_calls (c pt : recordset) : calls_at_most 4 (location_expr orm c pt).
Proof.
  unfold location_expr, get.
  apply (calls_at_most_bind 1 3); [by apply calls_at_most_call| |lia].
  intros src. apply calls_at_most_if; [by apply calls_at_most_silent|].
  apply (calls_at_most_bind 1 2); [by apply calls_at_most_call| |lia].
  intros wh. apply calls_at_most_if; [|by apply calls_at_most_silent].
  apply (calls_at_most_bind 1 1); [by apply calls_at_most_call| |lia].
  intros wh'. by apply calls_at_most_call.
Qed.

Lemma resolve_location_calls (config : config_arg) :
  calls_at_most 7 (resolve_location orm config).
Proof.
  unfold resolve_location, try_body. apply calls_at_most_try.
  apply (calls_at_most_bind 1 6); [| |lia].
  { unfold config_recordset, browse.
    destruct config; try (by apply calls_at_most_call);
      try (by apply calls_at_most_silent).
    apply calls_at_most_if; by apply calls_at_most_silent. }
  intros c. unfold exists_, get.
  apply (calls_at_most_bind 1 5); [by apply calls_at_most_call| |lia].
  intros found. apply calls_at_most_if; [by apply calls_at_most_silent|].
  apply (calls_at_most_bind 1 4); [by apply calls_at_most_call| |lia].
  intros pt. apply calls_at_most_if; [by apply calls_at_most_silent|].
  apply (calls_at_most_bind 4 0); [apply location_expr_calls| |lia].
  intros loc. apply calls_at_most_if; by apply calls_at_most_silent.
Qed.

Lemma aggregate_calls (products : list (gmap string pyval)) (c loc : recordset) :
  calls_at_most 2 (aggregate orm products c loc).
Proof.
  unfold aggregate, get, read_group.
  apply (calls_at_most_bind 0 2); [by apply calls_at_most_silent| |lia].
  intros ids.
  apply (calls_at_most_bind 0 2); [by apply calls_at_most_silent| |lia].
  intros lid.
  apply (calls_at_most_bind 1 1); [by apply calls_at_most_call| |lia].
  intros comp.
  apply (calls_at_most_bind 0 1); [by apply calls_at_most_silent| |lia].
  intros cid.
  apply (calls_at_most_bind 1 0); [by apply calls_at_most_call| |lia].
  intros quants. by apply calls_at_most_silent.
Qed.

(** X5. The work is done in a fixed number of ORM calls, whatever the
    number of products: no run makes more than nine (one browse, one
    exists, at most six field reads and one read_group). *)
Theorem at_most_nine_calls
    (products : list (gmap string pyval)) (config : config_arg) (s : state DB) :
  ∃ evs,
    st_log (process_products orm products config s).2 = (st_log s ++ evs)%list
    ∧ (length evs ≤ 9)%nat.
Proof.
  rewrite process_products_state. revert s.
  change (calls_at_most 9 (prepare orm products config)).
  unfold prepare. apply calls_at_most_if; [by apply calls_at_most_silent|].
  apply (calls_at_most_bind 7 2); [apply resolve_location_calls| |lia].
  intros [c loc]. apply aggregate_calls.
Qed.

Lemma read_group_calls_app (evs evs' : list event) :
  read_group_calls (evs ++ evs') = (read_group_calls evs + read_group_calls evs')%nat.
Proof. unfold read_group_calls. by rewrite filter_app, length_app. Qed.

Lemma read_group_calls_none (evs : list event) :
  Forall (λ ev, is_read_group ev = false) evs → read_group_calls evs = 0%nat.
Proof.
  unfold read_group_calls. induction 1 as [|ev evs Hev _ IH]; [done|].
  rewrite filter_cons_False by congruence. done.
Qed.

Lemma aggregate_read_group_calls (products : list (gmap string pyval))
    (c loc : recordset) (s : state DB) :
  ∃ evs, st_log (aggregate orm products c loc s).2 = (st_log s ++ evs)%list
         ∧ (read_group_calls evs ≤ 1)%nat
         ∧ ∀ qty, (aggregate orm products c loc s).1 = Val qty →
                  read_group_calls evs = 1%nat.
Proof.
  unfold_body.
  destruct (product_ids products) as [ids|]; simpl;
    [|exists []; rewrite app_nil_r; split_and!; [done|vm_compute; lia|done]].
  destruct (rs_id loc) as [lid|]; simpl;
    [|exists []; rewrite app_nil_r; split_and!; [done|vm_compute; lia|done]].
  destruct (orm_get orm (st_db s) c "company_id") as [comp|]; simpl;
    [|eexists [_]; split_and!; [done|vm_compute; lia|done]].
  destruct (rs_id comp) as [cid|]; simpl;
    [|eexists [_]; split_and!; [done|vm_compute; lia|done]].
  eexists [_; _]. split_and!.
  - by destruct (orm_read_group _ _ _ _ _ _); simpl; rewrite <- app_assoc.
  - vm_compute. lia.
  - intros _ _. by vm_compute.
Qed.

(** X6. [read_group] is called at most once in any run, exactly once in
    a run that completes, and not at all in a run that returns early. *)
Theorem read_group_at_most_once
    (products : list (gmap string pyval)) (config : config_arg) (s : state DB)
    (evs : list event) :
  st_log (process_products orm products config s).2 = (st_log s ++ evs)%list →
  (read_group_calls evs ≤ 1)%nat
  ∧ (out_completion (process_products orm products config s).1 = Completed →
     read_group_calls evs = 1%nat)
  ∧ (out_completion (process_products orm products config s).1 = ReturnedEarly →
     read_group_calls evs = 0%nat).
Proof.
  pose proof (process_products_cases orm products config s) as Hcases.
  rewrite process_products_state. revert Hcases.
  unfold prepare. case_bool_decide as Hnil.
  { simpl. intros Hcases Hlog. rewrite <- (app_nil_r (st_log s)) in Hlog at 1.
    apply app_inv_head in Hlog as <-.
    split_and!; [vm_compute; lia|by rewrite Hcases|done]. }
  rewrite run_bind.
  pose proof (resolve_location_queries_only orm config s) as [_ (reads & Hreads & Hno)].
  apply read_group_calls_none in Hno.
  destruct (resolve_location orm config s) as [[[c loc]| |e] s1] eqn:Hres; simpl in *.
  - destruct (aggregate_read_group_calls products c loc s1) as (evs' & Hlog' & Hle & Hone).
    pose proof (aggregate_not_returned orm products c loc s1) as Hnr.
    intros Hcases Hlog. rewrite Hlog', Hreads, <- app_assoc in Hlog.
    apply app_inv_head in Hlog as <-. rewrite read_group_calls_app, Hno. simpl.
    destruct (aggregate orm products c loc s1).1 as [qty| |e] eqn:Hagg; [| done |].
    + split_and!; [done|intros _; by eapply Hone|by rewrite Hcases].
    + split_and!; [done|by rewrite Hcases|by rewrite Hcases].
  - intros Hcases Hlog. rewrite Hreads in Hlog. apply app_inv_head in Hlog as <-.
    rewrite Hno. split_and!; [lia|by rewrite Hcases|done].
  - exfalso. eapply (resolve_location_no_raise orm config s). by rewrite Hres.
Qed.

(** X7. The [or] is short-circuited: when the picking type has a source
    location, that is the location, and the warehouse of the configuration
    is not read at all, so whatever reading it would give or raise does
    not matter. *)
Theorem source_location_shadows_warehouse
    (config : config_arg) (s : state DB) (c found pt src : recordset) :
  config_is orm (st_db s) config c →
  orm_exists orm (st_db s) c = Ok found → rs_truthy found = true →
  orm_get orm (st_db s) c "picking_type_id" = Ok pt → rs_truthy pt = true →
  orm_get orm (st_db s) pt "default_location_src_id" = Ok src → rs_truthy src = true →
  (resolve_location orm config s).1 = Val (c, src)
  ∧ ∃ evs, st_log (resolve_location orm config s).2 = (st_log s ++ evs)%list
           ∧ Forall (λ ev, reads_warehouse ev = false) evs.
Proof.
  intros Hc Hex Hfound Hpt Hptt Hsrc Hsrct. split.
  - apply resolve_location_val. split_and!; eauto.
    unfold spec_location. by rewrite Hpt, Hsrc, Hsrct.
  - destruct Hc; unfold_body; use_eqs.
    all: rewrite <- ?app_assoc; simpl.
    all: eexists; split; [reflexivity|by repeat constructor].
Qed.

Lemma product_ids_missing (products : list (gmap string pyval)) :
  Exists (λ p, p !! "id" = None) products →
  product_ids products = Raise (KeyError "id").
Proof.
  induction 1 as [p rest Hp|p rest _ IH]; simpl; unfold getitem.
  - by rewrite Hp.
  - destruct (p !! "id"); [|done]. by rewrite IH.
Qed.

(** X8. A product dictionary without [id] is noticed only after the
    location is resolved: the method then raises [KeyError] before it
    reads the company or queries the quants, and leaves every dictionary
    as it was. *)
Theorem missing_id_raises_before_query
    (products : list (gmap string pyval)) (config : config_arg) (s s1 : state DB)
    (c loc : recordset) :
  resolve_location orm config s = (Val (c, loc), s1) →
  Exists (λ p, p !! "id" = None) products →
  process_products orm products config s
  = (Outcome products (Raising (KeyError "id")), s1).
Proof.
  intros Hres Hmissing.
  assert (products ≠ []) as Hne by (intros ->; by apply Exists_nil in Hmissing).
  unfold process_products, prepare. rewrite bool_decide_false by done.
  rewrite run_bind, Hres. unfold_body.
  by rewrite (product_ids_missing products Hmissing).
Qed.

(** X9. [location.id] is read outside the [try] block: when the resolved
    location holds several records (a recordset of configurations with
    different locations), the method raises [ValueError] without a
    further ORM call and leaves every dictionary as it was. *)
Theorem several_locations_raise
    (products : list (gmap string pyval)) (config : config_arg) (s s1 : state DB)
    (c loc : recordset) (ids : list pyval) :
  products ≠ [] →
  resolve_location orm config s = (Val (c, loc), s1) →
  product_ids products = Ok ids →
  (2 ≤ length (rs_ids loc))%nat →
  process_products orm products config s
  = (Outcome products (Raising (ValueError "Expected singleton")), s1).
Proof.
  intros Hne Hres Hids Hlen.
  unfold process_products, prepare. rewrite bool_decide_false by done.
  rewrite run_bind, Hres. unfold_body. rewrite Hids. simpl.
  unfold rs_id. destruct (rs_ids loc) as [|l1 [|l2 ls]]; simpl in *; [lia|lia|done].
Qed.

(** X10. Failures of the query are not caught: when the company read or
    [read_group] raises, the exception leaves the method, and the
    dictionaries are as they were. *)
Theorem query_failure_propagates
    (products : list (gmap string pyval)) (config : config_arg) (s s1 : state DB)
    (c loc : recordset) (ids : list pyval) (lid : pyval) (e : exn) :
  products ≠ [] →
  resolve_location orm config s = (Val (c, loc), s1) →
  product_ids products = Ok ids →
  rs_id loc = Ok lid →
  orm_get orm (st_db s) c "company_id" = Raise e
  ∨ (∃ comp cid,
       orm_get orm (st_db s) c "company_id" = Ok comp
       ∧ rs_id comp = Ok cid
       ∧ orm_read_group orm (st_db s) "stock.quant" (quant_domain ids lid cid)
           ["product_id"; "quantity:sum"] ["product_id"] = Raise e) →
  (process_products orm products config s).1 = Outcome products (Raising e).
Proof.
  intros Hne Hres Hids Hlid Hfail.
  destruct (resolve_location_log orm _ _ _ _ _ Hres) as [Hdb _].
  unfold process_products, prepare. rewrite bool_decide_false by done.
  rewrite run_bind, Hres. unfold_body. rewrite Hids, Hlid, Hdb. simpl.
  destruct Hfail as [Hcomp|(comp & cid & Hcomp & Hcid & Hrg)].
  - by rewrite Hcomp.
  - unfold quant_domain in Hrg. by rewrite Hcomp, Hcid, Hrg.
Qed.

End Further.

(** ** The dictionary of quantities and the objects of the list *)

Lemma qty_by_product_snoc (quants : list group) (q : group) :
  qty_by_product (quants ++ [q])
  = <[(g_product_id q).1 := g_quantity q]> (qty_by_product quants).
Proof. unfold qty_by_product. by rewrite foldl_app. Qed.

(** X11. The dictionary comprehension keeps, for each product id, the
    quantity of the last row with that id, and has no entry for an id
    without a row. *)
Theorem qty_by_product_last_row (quants : list group) (pid : Z) :
  qty_by_product quants !! pid
  = g_quantity <$> last (filter (λ q, (g_product_id q).1 = pid) quants).
Proof.
  induction quants as [|q quants IH] using rev_ind; [done|].
  rewrite qty_by_product_snoc, filter_app.
  destruct (decide ((g_product_id q).1 = pid)) as [Heq|Hne].
  - rewrite filter_cons_True, filter_nil by done.
    rewrite last_snoc, Heq. by rewrite lookup_insert_eq.
  - rewrite filter_cons_False, filter_nil, app_nil_r by done.
    by rewrite lookup_insert_ne.
Qed.

Lemma store_same (heap : nat → gmap string pyval) (r : nat) (p : gmap string pyval) :
  store heap r p r = p.
Proof. unfold store. by rewrite Nat.eqb_refl. Qed.

Lemma store_other (heap : nat → gmap string pyval) (r r' : nat) (p : gmap string pyval) :
  r' ≠ r → store heap r p r' = heap r'.
Proof. unfold store. intros Hne. by apply Nat.eqb_neq in Hne as ->. Qed.

Lemma assign_in_place_step (qty : gmap Z Q) (r : nat) (rest : list nat)
    (heap : nat → gmap string pyval) :
  is_Some (heap r !! "id") →
  assign_in_place qty (r :: rest) heap
  = assign_in_place qty rest (store heap r (with_available_qty qty (heap r))).
Proof.
  intros [i Hi]. simpl. unfold getitem, with_available_qty, dict_get. rewrite Hi. simpl.
  by destruct (truthy (is_storable (heap r))).
Qed.

Lemma with_available_qty_id (qty : gmap Z Q) (p : gmap string pyval) :
  with_available_qty qty p !! "id" = p !! "id".
Proof. unfold with_available_qty. by rewrite lookup_insert_ne. Qed.

Lemma product_ids_present (products : list (gmap string pyval)) :
  Forall (λ p, is_Some (p !! "id")) products →
  ∃ ids, product_ids products = Ok ids.
Proof.
  induction 1 as [|p rest [i Hi] _ [ids IH]]; [by exists []|].
  exists (i :: ids). simpl. unfold getitem. by rewrite Hi, IH.
Qed.

(** X12. On the objects of the list: when every listed object has an
    [id], the loop ends without raising; an object that is listed, once
    or several times, ends as the dictionary one visit makes of it; an
    object that is not listed is untouched; and the list read through the
    heap is what the loop on a list of separate dictionaries gives. *)
Theorem assign_in_place_agrees (qty : gmap Z Q) (refs : list nat)
    (heap : nat → gmap string pyval) :
  (∀ r, r ∈ refs → is_Some (heap r !! "id")) →
  ∃ heap',
    assign_in_place qty refs heap = (heap', None)
    ∧ (∀ r, r ∈ refs → heap' r = with_available_qty qty (heap r))
    ∧ (∀ r, r ∉ refs → heap' r = heap r)
    ∧ heap' <$> refs = (assign_available_qty qty (heap <$> refs)).1.
Proof.
  intros Hids.
  assert (∃ heap',
            assign_in_place qty refs heap = (heap', None)
            ∧ (∀ r, r ∈ refs → heap' r = with_available_qty qty (heap r))
            ∧ (∀ r, r ∉ refs → heap' r = heap r)) as (heap' & Hrun & Hin & Hout).
  { revert heap Hids. induction refs as [|r rest IH]; intros heap Hids.
    - exists heap. split_and!; [done| |done]. intros r Hr. by apply elem_of_nil in Hr.
    - rewrite assign_in_place_step by (apply Hids; by left).
      destruct (IH (store heap r (with_available_qty qty (heap r))))
        as (heap' & Hrun & Hin & Hout).
      { intros r' Hr'. destruct (decide (r' = r)) as [->|Hne].
        - rewrite store_same, with_available_qty_id. apply Hids. by left.
        - rewrite store_other by done. apply Hids. by right. }
      exists heap'. split_and!; [done| |].
      + intros r' Hr'. destruct (decide (r' ∈ rest)) as [Hrest|Hrest].
        * rewrite (Hin r' Hrest). destruct (decide (r' = r)) as [->|Hne].
          -- by rewrite store_same, with_available_qty_again.
          -- by rewrite store_other.
        * apply elem_of_cons in Hr' as [->|?]; [|done].
          by rewrite (Hout r Hrest), store_same.
      + intros r' Hr'. apply not_elem_of_cons in Hr' as [Hne Hrest].
        by rewrite (Hout r' Hrest), store_other. }
  exists heap'. split_and!; [done..|].
  destruct (product_ids_present (heap <$> refs)) as [ids Hpids].
  { apply Forall_fmap, Forall_forall. intros r Hr. by apply Hids. }
  rewrite (assign_available_qty_total qty (heap <$> refs) ids Hpids). simpl.
  rewrite <- list_fmap_compose. apply list_fmap_ext.
  intros i r Hr. simpl. apply Hin. apply list_elem_of_lookup. by exists i.
Qed.

(** ** The two methods together *)

(** X13. The field list serves the storable test: a product dictionary
    that carries every field [_load_pos_data_fields] returns has both
    [type] and [is_storable], so the test of the loop reads the values of
    the product and never the [None] of a missing key. *)
Theorem loaded_fields_decide_storable {DB Cfg : Type}
    (super_fields : Cfg → state DB → result (list string) * state DB)
    (config_id : Cfg) (s : state DB) (res : list string) (p : gmap string pyval) :
  (_load_pos_data_fields super_fields config_id s).1 = Ok res →
  (∀ field, field ∈ res → is_Some (p !! field)) →
  ∃ type storable,
    p !! "type" = Some type
    ∧ p !! "is_storable" = Some storable
    ∧ truthy (is_storable p) = truthy storable || eq_str type "product".
Proof.
  unfold _load_pos_data_fields.
  destruct (super_fields config_id s) as [[fields|e] s1]; simpl; [|done].
  intros [= <-] Hcovers.
  destruct (ensure_type_fields_has fields) as [Htype Hstorable].
  destruct (Hcovers _ Htype) as [type Ht], (Hcovers _ Hstorable) as [storable Hs].
  exists type, storable. split_and!; [done..|].
  rewrite is_storable_truthy. unfold dict_get. by rewrite Ht, Hs.
Qed.

(** ** The further properties at work in the shop *)

Lemma stopped_call_leaves_products_witness :
  out_products
    (_process_pos_ui_product_product Memory.orm Shop.super_process Shop.products
       (CfgRecords (Recordset "pos.config" [1; 6]%Z)) (State Shop.db [])).1
  = Shop.products.
Proof.
  apply (stopped_call_leaves_products Memory.orm Shop.super_process Shop.products
           (CfgRecords (Recordset "pos.config" [1; 6]%Z)) (State Shop.db [])).
  vm_compute. discriminate.
Defined.

Lemma stale_quantity_is_ignored_witness :
  out_products
    (process_products Memory.orm
       [<["pos_available_qty" := VFloat (99 # 1)]> Shop.desk; Shop.lamp; Shop.delivery]
       (CfgInt 1) (State Shop.db Shop.resolved_log)).1
  = out_products (process_products Memory.orm Shop.products (CfgInt 1) (State Shop.db [])).1.
Proof.
  apply (stale_quantity_is_ignored Memory.orm Shop.products
           [<["pos_available_qty" := VFloat (99 # 1)]> Shop.desk; Shop.lamp; Shop.delivery]
           (CfgInt 1) (State Shop.db []) (State Shop.db Shop.resolved_log)).
  - repeat constructor; [apply same_but_qty_insert|apply same_but_qty_refl..].
  - reflexivity.
  - vm_compute. reflexivity.
Defined.

Lemma id_or_recordset_witness :
  (process_products Memory.orm Shop.products (CfgInt 1) (State Shop.db [])).1
  = (process_products Memory.orm Shop.products (CfgRecords Shop.config1) (State Shop.db [])).1.
Proof.
  apply (id_or_recordset Memory.orm Shop.products 1 Shop.config1 (State Shop.db [])).
  - vm_compute. reflexivity.
  - reflexivity.
Defined.

Lemma read_group_at_most_once_witness :
  read_group_calls
    (st_log (process_products Memory.orm Shop.products (CfgInt 1) (State Shop.db [])).2)
  = 1%nat.
Proof.
  destruct (read_group_at_most_once Memory.orm Shop.products (CfgInt 1) (State Shop.db [])
              (st_log (process_products Memory.orm Shop.products (CfgInt 1)
                         (State Shop.db [])).2))
    as (_ & Honce & _).
  - reflexivity.
  - apply Honce. vm_compute. reflexivity.
Defined.

Lemma source_location_shadows_warehouse_witness :
  (resolve_location Memory.orm (CfgInt 1) (State Shop.db [])).1
  = Val (Shop.config1, Shop.location100)
  ∧ ∃ evs,
      st_log (resolve_location Memory.orm (CfgInt 1) (State Shop.db [])).2
      = ([] ++ evs)%list
      ∧ Forall (λ ev, reads_warehouse ev = false) evs.
Proof.
  apply (source_location_shadows_warehouse Memory.orm (CfgInt 1) (State Shop.db [])
           Shop.config1 Shop.config1 (Recordset "stock.picking.type" [10%Z])
           Shop.location100).
  - apply config_is_int. vm_compute. reflexivity.
  - vm_compute. reflexivity.
  - reflexivity.
  - vm_compute. reflexivity.
  - reflexivity.
  - vm_compute. reflexivity.
  - reflexivity.
Defined.

Lemma missing_id_raises_before_query_witness :
  process_products Memory.orm ({[ "type" := VStr "product" ]} :: Shop.products)
    (CfgInt 1) (State Shop.db [])
  = (Outcome ({[ "type" := VStr "product" ]} :: Shop.products) (Raising (KeyError "id")),
     State Shop.db Shop.resolved_log).
Proof.
  apply (missing_id_raises_before_query Memory.orm
           ({[ "type" := VStr "product" ]} :: Shop.products) (CfgInt 1)
           (State Shop.db []) (State Shop.db Shop.resolved_log)
           Shop.config1 Shop.location100).
  - exact shop_resolves_location100.
  - apply Exists_cons_hd. vm_compute. reflexivity.
Defined.

Lemma several_locations_raise_witness :
  (process_products Memory.orm Shop.products
     (CfgRecords (Recordset "pos.config" [1; 6]%Z)) (State Shop.db [])).1
  = Outcome Shop.products (Raising (ValueError "Expected singleton")).
Proof.
  rewrite (several_locations_raise Memory.orm Shop.products
             (CfgRecords (Recordset "pos.config" [1; 6]%Z)) (State Shop.db [])
             (State Shop.db
                [EvExists (Recordset "pos.config" [1; 6]%Z);
                 EvGet (Recordset "pos.config" [1; 6]%Z) "picking_type_id";
                 EvGet (Recordset "stock.picking.type" [10; 12]%Z)
                   "default_location_src_id"])
             (Recordset "pos.config" [1; 6]%Z)
             (Recordset "stock.location" [100; 101]%Z)
             [VInt 7; VInt 8; VInt 9]).
  - reflexivity.
  - discriminate.
  - vm_compute. reflexivity.
  - vm_compute. reflexivity.
  - simpl. lia.
Defined.

Lemma query_failure_propagates_witness :
  (process_products Memory.orm [{[ "id" := VStr "desk" ]}] (CfgInt 1) (State Shop.db [])).1
  = Outcome [{[ "id" := VStr "desk" ]}] (Raising (ValueError "Invalid domain")).
Proof.
  apply (query_failure_propagates Memory.orm [{[ "id" := VStr "desk" ]}] (CfgInt 1)
           (State Shop.db []) (State Shop.db Shop.resolved_log)
           Shop.config1 Shop.location100 [VStr "desk"] (VInt 100)).
  - discriminate.
  - exact shop_resolves_location100.
  - vm_compute. reflexivity.
  - reflexivity.
  - right. exists (Recordset "res.company" [1%Z]), (VInt 1).
    split_and!; vm_compute; reflexivity.
Defined.

Lemma assign_in_place_agrees_witness :
  ∃ heap',
    assign_in_place ∅ [0; 1; 0]%nat (λ r, if Nat.eqb r 0 then Shop.desk else Shop.delivery)
    = (heap', None)
    ∧ heap' 0%nat = with_available_qty ∅ Shop.desk
    ∧ heap' 1%nat = with_available_qty ∅ Shop.delivery
    ∧ heap' 2%nat = Shop.delivery.
Proof.
  destruct (assign_in_place_agrees ∅ [0; 1; 0]%nat
              (λ r, if Nat.eqb r 0 then Shop.desk else Shop.delivery))
    as (heap' & Hrun & Hin & Hout & _).
  - intros r _. destruct r; vm_compute; eexists; reflexivity.
  - exists heap'. split_and!.
    + exact Hrun.
    + apply (Hin 0%nat). repeat constructor.
    + apply (Hin 1%nat). repeat constructor.
    + apply (Hout 2%nat). intros Hmem.
      repeat (apply elem_of_cons in Hmem as [Hmem|Hmem]; [discriminate|]).
      by apply elem_of_nil in Hmem.
Defined.

Lemma loaded_fields_decide_storable_witness :
  ∃ type storable,
    ({[ "id" := VInt 7; "display_name" := VStr "Desk"; "type" := VStr "consu";
        "is_storable" := VBool true ]} : gmap string pyval) !! "type" = Some type
    ∧ ({[ "id" := VInt 7; "display_name" := VStr "Desk"; "type" := VStr "consu";
          "is_storable" := VBool true ]} : gmap string pyval) !! "is_storable"
      = Some storable
    ∧ truthy (is_storable
                {[ "id" := VInt 7; "display_name" := VStr "Desk"; "type" := VStr "consu";
                   "is_storable" := VBool true ]})
      = truthy storable || eq_str type "product".
Proof.
  apply (loaded_fields_decide_storable Shop.super_fields 1%Z (State Shop.db [])
           ["id"; "display_name"; "type"; "is_storable"]).
  - vm_compute. reflexivity.
  - intros field Hfield.
    repeat (apply elem_of_cons in Hfield as [->|Hfield];
            [vm_compute; eexists; reflexivity|]).
    by apply elem_of_nil in Hfield.
Defined.

(** Configuration 3 takes the longest path: nine calls. *)
Example shop_config3_calls :
  length (st_log (process_products Memory.orm Shop.products (CfgInt 3) (State Shop.db [])).2)
  = 9%nat.
Proof. vm_compute. reflexivity. Qed.
